(** * A two-pass assembler for Mano's basic computer: model of [assembler.py]

    The development embeds the class [Assembler] of [src/assembler.py]:
    the tokenizer of [read_code], the comment stripper [__rm_comments], the
    numeric formatter [__format2bin], the two passes [__first_pass] and
    [__second_pass], and the facade [assemble].

    Conventions.
    - Python strings are [string]s over ASCII; the source text is taken to
      be ASCII (non-ASCII digits, spaces and case mappings of Unicode are
      outside the model).
    - Python integers are unbounded, so the location counter is a [Z];
      [int] and [str] are the mathematical conversions (the limit that
      recent interpreters put on the number of decimal digits is not
      modelled).
    - The dictionaries ([__address_symbol_table], [__bin] and the three
      instruction tables) are [gmap]s keyed by strings.
    - A Python exception is the [Raise] case of [result]; the early
      [return] of a pass is the [Return] case of [flow].
    - [assemble] is the first call on a new instance, whose symbol table
      and binary image are empty, with the source read by [read_code]. *)

From stdpp Require Import gmap strings list pretty.
From Stdlib Require Import ZArith Ascii String Lia.

Local Open Scope string_scope.
Local Open Scope Z_scope.
(** [++] is for lists; strings are appended with [+:+]. *)
Disable Notation "_ ++ _" (all) : string_scope.

(** ** Exceptions and results *)

Inductive exn : Type :=
  | IndexError
  | ValueError
  | AssertionError
  | Exception (msg : string).

Inductive result (A : Type) : Type :=
  | Ok (a : A)
  | Raise (e : exn).
Arguments Ok {A} a.
Arguments Raise {A} e.

(** Sequencing stops at the first exception. *)
Global Instance result_bind : MBind result := λ A B k r,
  match r with
  | Ok a => k a
  | Raise e => Raise e
  end.
Global Instance result_ret : MRet result := λ A a, Ok a.

(** What one iteration of a [for] loop does to the enclosing function:
    go on with the next iteration, or [return]. *)
Inductive flow (S : Type) : Type :=
  | Next (s : S)
  | Return (s : S).
Arguments Next {S} s.
Arguments Return {S} s.

Definition flow_state {S : Type} (f : flow S) : S :=
  match f with Next s | Return s => s end.

(** ** Python primitives *)

Module Py.

(** [l[i]] for a non-negative index. *)
Definition index {A : Type} (l : list A) (i : nat) : result A :=
  match l !! i with
  | Some x => Ok x
  | None => Raise IndexError
  end.

(** [l[-k]] for [k >= 1]. *)
Definition index_back {A : Type} (l : list A) (k : nat) : result A :=
  if decide (1 ≤ k ≤ List.length l)%nat then index l (List.length l - k)
  else Raise IndexError.

(** [s.endswith(',')] *)
Fixpoint endswith_comma (s : string) : bool :=
  match s with
  | EmptyString => false
  | String c EmptyString => bool_decide (c = ","%char)
  | String _ s' => endswith_comma s'
  end.

Definition startswith_underscore (s : string) : bool :=
  match s with
  | String c _ => bool_decide (c = "_"%char)
  | EmptyString => false
  end.

(** [s.startswith('/')] *)
Definition startswith_slash (s : string) : bool :=
  match s with
  | String c _ => bool_decide (c = "/"%char)
  | EmptyString => false
  end.

Definition code (c : ascii) : Z := Z.of_N (N_of_ascii c).

(** The characters [str.split], [str.rstrip] and [int] treat as white
    space, within ASCII: TAB, LF, VT, FF, CR, FS, GS, RS, US and space. *)
Definition isspace (c : ascii) : bool :=
  let n := code c in
  ((9 <=? n) && (n <=? 13)) || ((28 <=? n) && (n <=? 32)).

Definition isupper (c : ascii) : bool :=
  let n := code c in (65 <=? n) && (n <=? 90).

(** [c.lower()] *)
Definition lower_char (c : ascii) : ascii :=
  if isupper c then ascii_of_N (N_of_ascii c + 32) else c.

(** [s.lower()] *)
Fixpoint lower (s : string) : string :=
  match s with
  | EmptyString => EmptyString
  | String c s' => String (lower_char c) (lower s')
  end.

(** [s.split()]: the maximal runs of characters that are not white
    space; [cur] is the run being read. *)
Fixpoint split_from (cur : string) (s : string) : list string :=
  match s with
  | EmptyString => if decide (cur = "") then [] else [cur]
  | String c s' =>
      if isspace c
      then (if decide (cur = "") then split_from "" s'
            else cur :: split_from "" s')
      else split_from (cur +:+ String c "") s'
  end.

Definition split (s : string) : list string := split_from "" s.

(** [s.rstrip()] *)
Fixpoint rstrip (s : string) : string :=
  match s with
  | EmptyString => EmptyString
  | String c s' =>
      match rstrip s' with
      | EmptyString => if isspace c then EmptyString else String c EmptyString
      | r => String c r
      end
  end.

Fixpoint lstrip (s : string) : string :=
  match s with
  | String c s' => if isspace c then lstrip s' else s
  | EmptyString => EmptyString
  end.

(** The value of a character as a digit: [0-9], then [a-z] or [A-Z] for
    ten to thirty-five. *)
Definition digit_value (c : ascii) : option Z :=
  let n := code c in
  if (48 <=? n) && (n <=? 57) then Some (n - 48)
  else if (97 <=? n) && (n <=? 122) then Some (n - 87)
  else if (65 <=? n) && (n <=? 90) then Some (n - 55)
  else None.

Definition digit_in (base : Z) (c : ascii) : option Z :=
  match digit_value c with
  | Some d => if d <? base then Some d else None
  | None => None
  end.

(** The digits of an integer literal, with single underscores allowed
    between digits.  [prev_us] tells that the previous character was an
    underscore, [seen] that a digit has been read.  The result is the
    value and the unread rest, or [None] for a doubled or trailing
    underscore or no digit at all. *)
Fixpoint scan_digits (base : Z) (s : string) (prev_us seen : bool) (acc : Z)
    : option (Z * string) :=
  let stop := if prev_us || negb seen then None else Some (acc, s) in
  match s with
  | EmptyString => stop
  | String c s' =>
      if bool_decide (c = "_"%char)
      then (if prev_us then None else scan_digits base s' true seen acc)
      else match digit_in base c with
           | Some d => scan_digits base s' false true (acc * base + d)
           | None => stop
           end
  end.

(** The optional [0x] of [int(s, 16)], after which one underscore may
    come. *)
Definition skip_prefix (base : Z) (s : string) : string :=
  if bool_decide (base = 16) then
    match s with
    | String c0 (String c1 r) =>
        if bool_decide (c0 = "0"%char)
           && (bool_decide (c1 = "x"%char) || bool_decide (c1 = "X"%char))
        then match r with
             | String c2 r' => if bool_decide (c2 = "_"%char) then r' else r
             | EmptyString => r
             end
        else s
    | _ => s
    end
  else s.

(** What follows the sign: the optional prefix, the digits, and white
    space up to the end. *)
Definition magnitude (base : Z) (s : string) : result Z :=
  let s' := skip_prefix base s in
  if startswith_underscore s' then Raise ValueError
  else match scan_digits base s' false false 0 with
       | Some (v, rest) =>
           if decide (lstrip rest = "") then Ok v else Raise ValueError
       | None => Raise ValueError
       end.

(** [int(s, base)] for base ten and sixteen: white space around, an
    optional sign, the optional prefix, the digits. *)
Definition int (base : Z) (s : string) : result Z :=
  match lstrip s with
  | String c r =>
      if bool_decide (c = "+"%char) then magnitude base r
      else if bool_decide (c = "-"%char) then
        v ← magnitude base r; Ok (- v)
      else magnitude base (String c r)
  | EmptyString => Raise ValueError
  end.

End Py.

(** Integer to text. *)
Module Fmt.

(** ['{:b}'.format(n)]: the binary digits, most significant first, with
    a minus sign for a negative number. *)
Fixpoint bin_pos (p : positive) : string :=
  match p with
  | xH => "1"
  | xO q => bin_pos q +:+ "0"
  | xI q => bin_pos q +:+ "1"
  end.

Definition format_b (n : Z) : string :=
  match n with
  | Z0 => "0"
  | Zpos p => bin_pos p
  | Zneg p => "-" +:+ bin_pos p
  end.

Fixpoint zeros (n : nat) : string :=
  match n with
  | O => ""
  | S m => String "0" (zeros m)
  end.

(** [s.zfill(width)]: zeros on the left up to [width] characters, put
    after a leading sign. *)
Definition zfill (s : string) (width : Z) : string :=
  let pad := zeros (Z.to_nat (width - Z.of_nat (String.length s))) in
  match s with
  | String c r =>
      if bool_decide (c = "+"%char) || bool_decide (c = "-"%char)
      then String c (pad +:+ r)
      else pad +:+ s
  | EmptyString => pad
  end.

(** [str(n)] *)
Definition str (n : Z) : string := pretty n.

End Fmt.

(** ** The assembler *)

(** [read_code]: one token list per line of the file,
    [s.rstrip().lower().split()]. *)
Definition tokenize (s : string) : list string :=
  Py.split (Py.lower (Py.rstrip s)).

Definition read_code (lines : list string) : list (list string) :=
  map tokenize lines.

(** [__islabel] *)
Definition islabel (s : string) : bool := Py.endswith_comma s.

(** [__rm_comments], on one line: the inner loop deletes from the first
    token that starts with [/] to the end of the line. *)
Fixpoint rm_comment_line (line : list string) : list string :=
  match line with
  | [] => []
  | t :: ts => if Py.startswith_slash t then [] else t :: rm_comment_line ts
  end.

(** [__rm_comments] *)
Definition rm_comments (asm : list (list string)) : list (list string) :=
  map rm_comment_line asm.

(** [__format2bin] *)
Definition format2bin (num numformat : string) (format_bits : Z)
    : result string :=
  if decide (numformat = "dec") then
    n ← Py.int 10 num; Ok (Fmt.zfill (Fmt.format_b n) format_bits)
  else if decide (numformat = "hex") then
    n ← Py.int 16 num; Ok (Fmt.zfill (Fmt.format_b n) format_bits)
  else Raise (Exception "format2bin: not supported format provided.").

(** A [for] loop over the lines, with the body [step]: an exception or a
    [return] in the body ends the loop. *)
Fixpoint run_lines {S : Type} (step : list string → S → result (flow S))
    (asm : list (list string)) (s : S) : result (flow S) :=
  match asm with
  | [] => Ok (Next s)
  | line :: rest =>
      match step line s with
      | Ok (Next s') => run_lines step rest s'
      | Ok (Return s') => Ok (Return s')
      | Raise e => Raise e
      end
  end.

(** The body of the loop of [__first_pass], on the location counter and
    the symbol table.  [int('1', 16)] is 1. *)
Definition first_pass_line (line : list string) (st : Z * gmap string Z)
    : result (flow (Z * gmap string Z)) :=
  let '(LC, table) := st in
  code ← Py.index line 0;
  if islabel code then Ok (Next (LC + 1, <[code := LC]> table))
  else if decide (code = "org") then
    tok ← Py.index_back line 1;
    v ← Py.int 16 tok;
    Ok (Next (v, table))
  else if decide (code = "end") then Ok (Return (LC, table))
  else Ok (Next (LC + 1, table)).

(** [__first_pass], from the symbol table [table] of the instance;
    [int('0', 16)] is 0. *)
Definition first_pass (asm : list (list string)) (table : gmap string Z)
    : result (gmap string Z) :=
  f ← run_lines first_pass_line asm (0, table); Ok (flow_state f).2.

Definition pseudo_table : list string := ["org"; "end"; "hex"; "dec"].

Section second_pass.

(** The instruction tables of the instance. *)
Variables mri_table rri_table ioi_table : gmap string string.

(** The body of the loop of [__second_pass], on the location counter and
    the binary image, with the symbol table of the first pass. *)
Definition second_pass_line (table : gmap string Z) (line : list string)
    (st : Z * gmap string string) : result (flow (Z * gmap string string)) :=
  let '(LC, bin) := st in
  tok0 ← Py.index line 0;
  let effective_index := if negb (islabel tok0) then 0%nat else 1%nat in
  LC_add ← format2bin (Fmt.str LC) "dec" 12;
  i_eff ← Py.index line effective_index;
  if bool_decide (i_eff ∈ pseudo_table) then
    if decide (i_eff = "org") then
      tok ← Py.index_back line 1;
      v ← Py.int 16 tok;
      Ok (Next (v, bin))
    else if decide (i_eff = "end") then Ok (Return (LC, bin))
    else if decide (i_eff = "dec") then
      tok ← Py.index_back line 1;
      w ← format2bin tok "dec" 16;
      Ok (Next (LC + 1, <[LC_add := w]> bin))
    else
      tok ← Py.index_back line 1;
      w ← format2bin tok "hex" 16;
      Ok (Next (LC + 1, <[LC_add := w]> bin))
  else
    match mri_table !! i_eff with
    | Some opcode =>
        last ← Py.index_back line 1;
        '(I_bit, loc_eff) ←
          (if decide (last = "I")
           then prev ← Py.index_back line 2; Ok ("1", prev)
           else Ok ("0", last));
        match table !! (loc_eff +:+ ",") with
        | Some location =>
            a ← format2bin (Fmt.str location) "dec" 12;
            Ok (Next (LC + 1, <[LC_add := I_bit +:+ opcode +:+ a]> bin))
        | None =>
            a ← format2bin loc_eff "hex" 12;
            Ok (Next (LC + 1, <[LC_add := I_bit +:+ opcode +:+ a]> bin))
        end
    | None =>
        match rri_table !! i_eff with
        | Some word => Ok (Next (LC + 1, <[LC_add := word]> bin))
        | None =>
            match ioi_table !! i_eff with
            | Some word => Ok (Next (LC + 1, <[LC_add := word]> bin))
            | None => Ok (Next (LC + 1, bin))
            end
        end
    end.

(** [__second_pass], from the binary image [bin] of the instance. *)
Definition second_pass (table : gmap string Z) (asm : list (list string))
    (bin : gmap string string) : result (gmap string string) :=
  f ← run_lines (second_pass_line table) asm (0, bin); Ok (flow_state f).2.

(** The two passes on the comment-free lines, for a new instance: the
    symbol table and the binary image they leave. *)
Definition passes (asm : list (list string))
    : result (gmap string Z * gmap string string) :=
  table ← first_pass asm ∅;
  bin ← second_pass table asm ∅;
  Ok (table, bin).

(** [assemble], for a new instance whose source [asm] was read by
    [read_code] and without [inp]: the assertion fails on an empty
    source. *)
Definition assemble (asm : list (list string)) : result (gmap string string) :=
  if decide (asm = []) then Raise AssertionError
  else
    r ← passes (rm_comments asm);
    Ok r.2.

End second_pass.

(** * Vocabulary of the statements *)

(** The address key of a word: the location counter as [__second_pass]
    writes it, [__format2bin(str(LC), 'dec', 12)]. *)
Definition address (LC : Z) : string := Fmt.zfill (Fmt.format_b LC) 12.

(** The number a string of binary digits stands for. *)
Fixpoint bits_value (s : string) (acc : Z) : Z :=
  match s with
  | EmptyString => acc
  | String c s' => bits_value s' (2 * acc + (if bool_decide (c = "1"%char) then 1 else 0))
  end.

(** The token [__second_pass] dispatches on: the first token, or the
    second one after a label. *)
Definition effective_token (line : list string) : option string :=
  match line with
  | [] => None
  | tok0 :: _ => line !! (if negb (islabel tok0) then 0%nat else 1%nat)
  end.

(** No capital letter in a token, as after [lower]. *)
Fixpoint no_upper (s : string) : bool :=
  match s with
  | EmptyString => true
  | String c s' => negb (Py.isupper c) && no_upper s'
  end.

(** No token of the line starts a comment. *)
Definition comment_free (line : list string) : Prop :=
  Forall (λ t, Py.startswith_slash t = false) line.

Definition is_ok {A : Type} (r : result A) : bool :=
  match r with Ok _ => true | Raise _ => false end.

(** A line that is one recognized instruction: no label, no directive, a
    mnemonic of one of the three tables, and for a memory-reference
    instruction a last token that reads as a hexadecimal address. *)
Definition plain_instruction (mri_table rri_table ioi_table : gmap string string)
    (line : list string) : bool :=
  match line with
  | [] => false
  | tok0 :: _ =>
      negb (islabel tok0) && negb (bool_decide (tok0 ∈ pseudo_table))
      && match mri_table !! tok0 with
         | Some _ =>
             match last line with
             | Some operand => is_ok (Py.int 16 operand)
             | None => false
             end
         | None =>
             bool_decide (is_Some (rri_table !! tok0))
             || bool_decide (is_Some (ioi_table !! tok0))
         end
  end.

(** Example instruction tables: three memory-reference, two
    register-reference and one input-output instruction of the basic
    computer. *)
Definition mri_example : gmap string string :=
  {[ "and" := "000"; "add" := "001"; "lda" := "010" ]}.
Definition rri_example : gmap string string :=
  {[ "cla" := "0111100000000000"; "hlt" := "0111000000000001" ]}.
Definition ioi_example : gmap string string :=
  {[ "inp" := "1111100000000000" ]}.

(** * The rest of the class *)

(** String methods of [read_code] and of the statements about it. *)
Module PyStr.

(** [s.endswith(suffix)] *)
Fixpoint endswith (s suffix : string) : bool :=
  bool_decide (s = suffix)
  || match s with
     | String _ s' => endswith s' suffix
     | EmptyString => false
     end.

(** [s.split(sep)] for a separator of one character; [cur] is the piece
    being read. *)
Fixpoint split_on (sep : ascii) (cur s : string) : list string :=
  match s with
  | EmptyString => [cur]
  | String c s' =>
      if bool_decide (c = sep) then cur :: split_on sep "" s'
      else split_on sep (cur +:+ String c "") s'
  end.

(** [' '.join(l)] *)
Fixpoint join (l : list string) : string :=
  match l with
  | [] => ""
  | [t] => t
  | t :: rest => t +:+ String " " (join rest)
  end.

End PyStr.

(** The assertion of [read_code] and of [assemble] on a path. *)
Definition valid_path (path : string) : bool :=
  PyStr.endswith path ".asm" || PyStr.endswith path ".S".

(** [path.split('/')[-1]] *)
Definition asmfile_of (path : string) : result string :=
  Py.index_back (PyStr.split_on "/" "" path) 1.

(** [read_code] on a path whose file holds the lines [file] (what
    [f.readlines()] returns): the name kept in [__asmfile] and the token
    lines kept in [__asm]. *)
Definition read_code_at (path : string) (file : list string)
    : result (string * list (list string)) :=
  if valid_path path then
    name ← asmfile_of path;
    Ok (name, read_code file)
  else Raise AssertionError.

(** One step of the dictionary comprehension of [__load_table]: the line
    is unpacked into [opcode, binary]. *)
Definition load_entry (t : list string) (m : gmap string string)
    : result (gmap string string) :=
  match t with
  | [opcode; binary] => Ok (<[opcode := binary]> m)
  | _ => Raise ValueError
  end.

Fixpoint load_entries (t : list (list string)) (m : gmap string string)
    : result (gmap string string) :=
  match t with
  | [] => Ok m
  | e :: rest => m' ← load_entry e m; load_entries rest m'
  end.

(** [__load_table], on the lines of the file. *)
Definition load_table (file : list string) : result (gmap string string) :=
  load_entries (map tokenize file) ∅.

(** The fields of an instance whose source was read. *)
Module Assembler.

Record t : Type := make {
  address_symbol_table : gmap string Z;
  bin : gmap string string;
  asmfile : string;
  asm : list (list string);
  mri_table : gmap string string;
  rri_table : gmap string string;
  ioi_table : gmap string string;
}.

End Assembler.

(** [__init__] with a source path: the source file and the files of the
    tables that are given are read, in this order. *)
Definition init (asmpath : string) (asmlines : list string)
    (mri rri ioi : option (list string)) : result Assembler.t :=
  '(name, code) ← read_code_at asmpath asmlines;
  mri_t ← match mri with Some file => load_table file | None => Ok ∅ end;
  rri_t ← match rri with Some file => load_table file | None => Ok ∅ end;
  ioi_t ← match ioi with Some file => load_table file | None => Ok ∅ end;
  Ok (Assembler.make ∅ ∅ name code mri_t rri_t ioi_t).

(** [assemble(inp)] as a method: the value returned and the instance
    after the call.  [file] holds the lines of the file at [inp], which is
    read only when the instance has no source line. *)
Definition assemble_on (self : Assembler.t) (inp : string) (file : list string)
    : result (gmap string string * Assembler.t) :=
  if bool_decide (Assembler.asm self = []) && bool_decide (inp = "")
  then Raise AssertionError
  else if negb (bool_decide (inp = "")) && negb (valid_path inp)
  then Raise AssertionError
  else
    '(name, code) ←
      (if bool_decide (Assembler.asm self = []) then read_code_at inp file
       else Ok (Assembler.asmfile self, Assembler.asm self));
    let code' := rm_comments code in
    table ← first_pass code' (Assembler.address_symbol_table self);
    image ← second_pass (Assembler.mri_table self) (Assembler.rri_table self)
              (Assembler.ioi_table self) table code' (Assembler.bin self);
    Ok (image,
        Assembler.make table image name code' (Assembler.mri_table self)
          (Assembler.rri_table self) (Assembler.ioi_table self)).

(** ** More vocabulary *)

(** A token as [split] gives it: not empty and without white space. *)
Fixpoint no_space (s : string) : bool :=
  match s with
  | EmptyString => true
  | String c s' => negb (Py.isspace c) && no_space s'
  end.

Definition is_token (s : string) : bool :=
  negb (bool_decide (s = "")) && no_space s.

(** The integer a formatted string stands for: binary digits after an
    optional minus sign. *)
Definition decode (s : string) : Z :=
  match s with
  | String c r =>
      if bool_decide (c = "-"%char) then - bits_value r 0 else bits_value s 0
  | EmptyString => 0
  end.

(** Only binary digits. *)
Fixpoint is_binary (s : string) : bool :=
  match s with
  | EmptyString => true
  | String c s' =>
      (bool_decide (c = "0"%char) || bool_decide (c = "1"%char)) && is_binary s'
  end.

(** The line declares a label and does not put a directive of the
    location counter after it. *)
Definition no_labelled_directive (line : list string) : bool :=
  match line with
  | tok0 :: tok1 :: _ =>
      negb (islabel tok0 && (bool_decide (tok1 = "org") || bool_decide (tok1 = "end")))
  | _ => true
  end.

(** The character [c] occurs in [s]. *)
Fixpoint has_char (c : ascii) (s : string) : bool :=
  match s with
  | EmptyString => false
  | String c' s' => bool_decide (c' = c) || has_char c s'
  end.

(** A line the first pass goes through: it has a first token, and when
    this token is [org] the last token reads as a hexadecimal number. *)
Definition first_pass_accepts (line : list string) : bool :=
  match line with
  | [] => false
  | tok0 :: _ =>
      islabel tok0
      || negb (bool_decide (tok0 = "org"))
      || match last line with
         | Some tok => is_ok (Py.int 16 tok)
         | None => false
         end
  end.

(** The outcome of a loop with its dictionary changed by [g]. *)
Definition on_store {V : Type} (g : V → V) (r : result (flow (Z * V)))
    : result (flow (Z * V)) :=
  match r with
  | Ok (Next (LC, d)) => Ok (Next (LC, g d))
  | Ok (Return (LC, d)) => Ok (Return (LC, g d))
  | Raise e => Raise e
  end.

(** What one line does in the second pass. *)
Inductive line_outcome (table : gmap string Z) (line : list string) (LC : Z)
    (bin : gmap string string) : result (flow (Z * gmap string string)) → Prop :=
  | outcome_raise (e : exn) :
      e = IndexError ∨ e = ValueError →
      line_outcome table line LC bin (Raise e)
  | outcome_end :
      effective_token line = Some "end" →
      line_outcome table line LC bin (Ok (Return (LC, bin)))
  | outcome_org (tok : string) (v : Z) :
      effective_token line = Some "org" →
      last line = Some tok →
      Py.int 16 tok = Ok v →
      line_outcome table line LC bin (Ok (Next (v, bin)))
  | outcome_skip (tok : string) :
      effective_token line = Some tok →
      tok ∉ pseudo_table →
      line_outcome table line LC bin (Ok (Next (LC + 1, bin)))
  | outcome_word (tok word : string) :
      effective_token line = Some tok →
      tok ≠ "org" → tok ≠ "end" →
      line_outcome table line LC bin
        (Ok (Next (LC + 1, <[address LC := word]> bin))).

(** A table file that [__load_table] takes, or no file: two tokens on
    every line. *)
Definition table_file_ok (file : option (list string)) : Prop :=
  match file with
  | Some lines => Forall (λ line, List.length (tokenize line) = 2%nat) lines
  | None => True
  end.

(** The line starts with the token [lab]. *)
Definition declares (lab : string) (line : list string) : bool :=
  bool_decide (head line = Some lab).

(** * Facts about the primitives *)

Section primitives.

Lemma index_0_cons {A : Type} (x : A) (l : list A) : Py.index (x :: l) 0 = Ok x.
Proof. reflexivity. Qed.

Lemma index_nil {A : Type} (i : nat) : Py.index (@nil A) i = Raise IndexError.
Proof. reflexivity. Qed.

Lemma index_back_last {A : Type} (l : list A) (x : A) :
  Py.index_back (l ++ [x]) 1 = Ok x.
Proof.
  unfold Py.index_back, Py.index. rewrite length_app. simpl.
  destruct (decide _) as [_|H]; [|lia].
  by rewrite (list_lookup_middle l [] x) by lia.
Qed.

(** [l[-1]] is the last element, and fails on the empty list only. *)
Lemma index_back_1 {A : Type} (l : list A) :
  Py.index_back l 1 = match last l with Some x => Ok x | None => Raise IndexError end.
Proof.
  destruct l as [|y l _] using rev_ind; [reflexivity|].
  by rewrite index_back_last, last_snoc.
Qed.

(** One decimal digit read by the scanner. *)
Lemma scan_digits_char (d : N) (s : string) (seen : bool) (acc : Z) :
  (d < 10)%N →
  Py.scan_digits 10 (String (pretty_N_char d) s) false seen acc
  = Py.scan_digits 10 s false true (acc * 10 + Z.of_N d).
Proof.
  intros Hd.
  assert (d = 0 ∨ d = 1 ∨ d = 2 ∨ d = 3 ∨ d = 4 ∨ d = 5 ∨ d = 6 ∨ d = 7
          ∨ d = 8 ∨ d = 9)%N as Hcases by lia.
  repeat (destruct Hcases as [->|Hcases]; [reflexivity|]).
  subst d. reflexivity.
Qed.

(** The scanner reads back the decimal digits that [pretty] writes. *)
Lemma scan_digits_pretty_go (x : N) (s : string) (seen : bool) :
  (0 < x)%N →
  Py.scan_digits 10 (pretty_N_go x s) false seen 0
  = Py.scan_digits 10 s false true (Z.of_N x).
Proof.
  revert s seen. induction (N.lt_wf_0 x) as [x _ IH]. intros s seen Hx.
  rewrite pretty_N_go_step by done.
  assert (Hmod : (x `mod` 10 < 10)%N) by (apply N.mod_lt; lia).
  destruct (decide (x `div` 10 = 0)%N) as [Hq|Hq].
  - rewrite Hq, pretty_N_go_0, scan_digits_char by done.
    f_equal. pose proof (N.div_mod' x 10) as Hx10. rewrite Hq in Hx10. lia.
  - rewrite IH; [|apply N.div_lt; lia|by apply N.neq_0_lt_0].
    rewrite scan_digits_char by done.
    f_equal. pose proof (N.div_mod' x 10) as Hx10. lia.
Qed.

(** What [pretty] writes for a positive number starts with a digit. *)
Lemma pretty_go_head (x : N) (s : string) :
  (0 < x)%N →
  ∃ d r, (d < 10)%N ∧ pretty_N_go x s = String (pretty_N_char d) r.
Proof.
  revert s. induction (N.lt_wf_0 x) as [x _ IH]. intros s Hx.
  rewrite pretty_N_go_step by done.
  destruct (decide (x `div` 10 = 0)%N) as [Hq|Hq].
  - rewrite Hq, pretty_N_go_0. eexists _, _. split; [|done].
    apply N.mod_lt. lia.
  - apply IH; [apply N.div_lt; lia|by apply N.neq_0_lt_0].
Qed.

Lemma magnitude_digit_head (d : N) (r : string) :
  (d < 10)%N →
  Py.magnitude 10 (String (pretty_N_char d) r)
  = match Py.scan_digits 10 (String (pretty_N_char d) r) false false 0 with
    | Some (v, rest) =>
        if decide (Py.lstrip rest = "") then Ok v else Raise ValueError
    | None => Raise ValueError
    end.
Proof.
  intros Hd.
  assert (d = 0 ∨ d = 1 ∨ d = 2 ∨ d = 3 ∨ d = 4 ∨ d = 5 ∨ d = 6 ∨ d = 7
          ∨ d = 8 ∨ d = 9)%N as Hcases by lia.
  repeat (destruct Hcases as [->|Hcases]; [reflexivity|]).
  subst d. reflexivity.
Qed.

Lemma int_digit_head (d : N) (r : string) :
  (d < 10)%N →
  Py.int 10 (String (pretty_N_char d) r)
  = Py.magnitude 10 (String (pretty_N_char d) r).
Proof.
  intros Hd.
  assert (d = 0 ∨ d = 1 ∨ d = 2 ∨ d = 3 ∨ d = 4 ∨ d = 5 ∨ d = 6 ∨ d = 7
          ∨ d = 8 ∨ d = 9)%N as Hcases by lia.
  repeat (destruct Hcases as [->|Hcases]; [reflexivity|]).
  subst d. reflexivity.
Qed.

Lemma magnitude_pretty_go (x : N) :
  (0 < x)%N → Py.magnitude 10 (pretty_N_go x "") = Ok (Z.of_N x).
Proof.
  intros Hx. destruct (pretty_go_head x "" Hx) as (d & r & Hd & Heq).
  rewrite Heq, magnitude_digit_head by done.
  rewrite <- Heq, scan_digits_pretty_go by done. reflexivity.
Qed.

Lemma int_pretty_go (x : N) :
  (0 < x)%N → Py.int 10 (pretty_N_go x "") = Ok (Z.of_N x).
Proof.
  intros Hx. destruct (pretty_go_head x "" Hx) as (d & r & Hd & Heq).
  rewrite Heq, int_digit_head by done.
  rewrite <- Heq. by apply magnitude_pretty_go.
Qed.

(** [int(str(n))] is [n]. *)
Lemma int_str (n : Z) : Py.int 10 (Fmt.str n) = Ok n.
Proof.
  destruct n as [|p|p]; [reflexivity| |].
  - apply (int_pretty_go (Npos p)). lia.
  - change (Fmt.str (Z.neg p)) with (String "-" (pretty_N_go (Npos p) "")).
    change (Py.int 10 (String "-" (pretty_N_go (N.pos p) "")))
      with (v ← Py.magnitude 10 (pretty_N_go (N.pos p) ""); Ok (- v)).
    rewrite magnitude_pretty_go by lia. reflexivity.
Qed.

End primitives.

(** * Facts about the formatting *)

Section formatting.

Lemma string_length_app (s1 s2 : string) :
  String.length (s1 +:+ s2) = (String.length s1 + String.length s2)%nat.
Proof. induction s1 as [|c s1 IH]; simpl; [done|]. by rewrite IH. Qed.

Lemma length_zeros (n : nat) : String.length (Fmt.zeros n) = n.
Proof. induction n as [|n IH]; simpl; [done|]. by rewrite IH. Qed.

Lemma bits_value_app (s1 s2 : string) (acc : Z) :
  bits_value (s1 +:+ s2) acc = bits_value s2 (bits_value s1 acc).
Proof. revert acc. induction s1 as [|c s1 IH]; intros acc; simpl; done. Qed.

Lemma bits_value_zeros (n : nat) : bits_value (Fmt.zeros n) 0 = 0.
Proof. induction n as [|n IH]; simpl; done. Qed.

Lemma bits_value_bin_pos (p : positive) : bits_value (Fmt.bin_pos p) 0 = Z.pos p.
Proof.
  induction p as [q IH|q IH|]; simpl; [| |done].
  - rewrite bits_value_app, IH. simpl. lia.
  - rewrite bits_value_app, IH. simpl. lia.
Qed.

(** The binary digits of a positive number start with a digit. *)
Lemma bin_pos_head (p : positive) :
  ∃ r, Fmt.bin_pos p = String "1" r.
Proof.
  induction p as [q [r IH]|q [r IH]|]; simpl; [| |by eexists].
  - rewrite IH. by eexists.
  - rewrite IH. by eexists.
Qed.

Lemma zfill_format_b (n w : Z) :
  0 ≤ n →
  Fmt.zfill (Fmt.format_b n) w
  = Fmt.zeros (Z.to_nat (w - Z.of_nat (String.length (Fmt.format_b n))))
    +:+ Fmt.format_b n.
Proof.
  intros Hn. destruct n as [|p|p]; [done| |lia].
  simpl. destruct (bin_pos_head p) as [r ->]. done.
Qed.

Lemma bits_value_format_b (n w : Z) :
  0 ≤ n → bits_value (Fmt.zfill (Fmt.format_b n) w) 0 = n.
Proof.
  intros Hn. rewrite zfill_format_b, bits_value_app, bits_value_zeros by done.
  destruct n as [|p|p]; [done| |lia]. apply bits_value_bin_pos.
Qed.

(** Distinct locations have distinct address keys. *)
Lemma address_inj (m n : Z) : 0 ≤ m → 0 ≤ n → address m = address n → m = n.
Proof.
  intros Hm Hn Heq.
  rewrite <- (bits_value_format_b m 12), <- (bits_value_format_b n 12) by done.
  unfold address in Heq. by rewrite Heq.
Qed.

Lemma pow2_length_bin_pos (p : positive) :
  2 ^ Z.of_nat (String.length (Fmt.bin_pos p)) ≤ 2 * Z.pos p.
Proof.
  induction p as [q IH|q IH|]; simpl String.length; [| |done].
  - rewrite string_length_app, Nat2Z.inj_add, Z.pow_add_r by lia.
    simpl String.length. change (2 ^ Z.of_nat 1) with 2. lia.
  - rewrite string_length_app, Nat2Z.inj_add, Z.pow_add_r by lia.
    simpl String.length. change (2 ^ Z.of_nat 1) with 2. lia.
Qed.

(** A number below [2 ^ w] is written on exactly [w] characters. *)
Lemma length_zfill_format_b (n w : Z) :
  0 ≤ n < 2 ^ w → 0 < w →
  String.length (Fmt.zfill (Fmt.format_b n) w) = Z.to_nat w.
Proof.
  intros [Hn Hlt] Hw. rewrite zfill_format_b, string_length_app, length_zeros by done.
  assert (Z.of_nat (String.length (Fmt.format_b n)) ≤ w) as Hlen; [|lia].
  destruct n as [|p|p]; [simpl; lia| |lia].
  simpl Fmt.format_b. pose proof (pow2_length_bin_pos p) as Hp.
  destruct (decide (Z.of_nat (String.length (Fmt.bin_pos p)) ≤ w)) as [|Hgt]; [done|].
  assert (2 ^ (w + 1) ≤ 2 ^ Z.of_nat (String.length (Fmt.bin_pos p))) as Hpow
    by (apply Z.pow_le_mono_r; lia).
  rewrite Z.pow_add_r in Hpow by lia. lia.
Qed.

Lemma length_address (LC : Z) :
  0 ≤ LC < 4096 → String.length (address LC) = 12%nat.
Proof. intros H. by apply (length_zfill_format_b LC 12). Qed.

(** [__format2bin] on the text of a number, as [__second_pass] calls it
    on the location counter and on the addresses of labels. *)
Lemma format2bin_str (n w : Z) :
  format2bin (Fmt.str n) "dec" w = Ok (Fmt.zfill (Fmt.format_b n) w).
Proof. unfold format2bin. simpl. by rewrite int_str. Qed.

End formatting.

(** * Facts about the loop *)

Section loop.

Context {S : Type} (step : list string → S → result (flow S)).

Lemma run_lines_cons (line : list string) (rest : list (list string)) (s : S) :
  run_lines step (line :: rest) s
  = match step line s with
    | Ok (Next s') => run_lines step rest s'
    | Ok (Return s') => Ok (Return s')
    | Raise e => Raise e
    end.
Proof. reflexivity. Qed.

Lemma run_lines_app (l1 l2 : list (list string)) (s : S) :
  run_lines step (l1 ++ l2) s
  = match run_lines step l1 s with
    | Ok (Next s') => run_lines step l2 s'
    | r => r
    end.
Proof.
  revert s. induction l1 as [|line l1 IH]; intros s; simpl; [done|].
  destruct (step line s) as [[s'|s']|e]; [apply IH|done|done].
Qed.

(** The state before line [i] determines the state after it. *)
Lemma run_lines_take_S (asm : list (list string)) (i : nat) (line : list string)
    (s s' : S) :
  asm !! i = Some line →
  run_lines step (take i asm) s = Ok (Next s') →
  run_lines step (take (Datatypes.S i) asm) s
  = match step line s' with
    | Ok (Next s'') => Ok (Next s'')
    | r => r
    end.
Proof.
  intros Hi Hrun. rewrite (take_S_r _ _ _ Hi), run_lines_app, Hrun. simpl.
  by destruct (step line s') as [[?|?]|?].
Qed.

(** A line that returns hides what follows it. *)
Lemma run_lines_return (pre post : list (list string)) (line : list string) (s : S) :
  (∀ s', ∃ s'', step line s' = Ok (Return s'')) →
  run_lines step (pre ++ line :: post) s = run_lines step (pre ++ [line]) s.
Proof.
  intros Hret. rewrite !run_lines_app.
  destruct (run_lines step pre s) as [[s'|s']|e]; [|done|done].
  simpl. destruct (Hret s') as [s'' ->]. done.
Qed.

End loop.

(** * The comment stripper *)

Section comments.

Lemma rm_comment_line_free (line : list string) :
  comment_free (rm_comment_line line).
Proof.
  induction line as [|t ts IH]; simpl; [constructor|].
  destruct (Py.startswith_slash t) eqn:Ht; [constructor|].
  by constructor.
Qed.

Lemma rm_comment_line_id (line : list string) :
  comment_free line → rm_comment_line line = line.
Proof.
  induction 1 as [|t ts Ht _ IH]; simpl; [done|]. by rewrite Ht, IH.
Qed.

Lemma rm_comments_app (l1 l2 : list (list string)) :
  rm_comments (l1 ++ l2) = rm_comments l1 ++ rm_comments l2.
Proof. apply map_app. Qed.

Lemma length_rm_comments (asm : list (list string)) :
  List.length (rm_comments asm) = List.length asm.
Proof. apply length_map. Qed.

(** C9. Comment stripping is idempotent: stripping the comments of lines
    that were stripped already changes nothing, because after one
    application no remaining token starts with [/]. *)
Theorem rm_comments_idempotent (asm : list (list string)) :
  rm_comments (rm_comments asm) = rm_comments asm
  ∧ Forall comment_free (rm_comments asm).
Proof.
  split.
  - induction asm as [|line asm IH]; simpl; [done|].
    f_equal; [|exact IH]. apply rm_comment_line_id, rm_comment_line_free.
  - apply Forall_forall. intros line Hin.
    apply list_elem_of_In, in_map_iff in Hin as (line' & <- & _).
    apply rm_comment_line_free.
Qed.

End comments.

(** * The numeric formatter *)

Section formatter.

(** [int] fails with [ValueError] only. *)
Lemma int_raises (base : Z) (s : string) (e : exn) :
  Py.int base s = Raise e → e = ValueError.
Proof.
  assert (Hmag : ∀ t e', Py.magnitude base t = Raise e' → e' = ValueError).
  { intros t e'. unfold Py.magnitude.
    destruct (Py.startswith_underscore _); [congruence|].
    destruct (Py.scan_digits _ _ _ _ _) as [[v rest]|]; [|congruence].
    destruct (decide _); congruence. }
  unfold Py.int. destruct (Py.lstrip s) as [|c r]; [congruence|].
  destruct (bool_decide (c = "+"%char)); [apply Hmag|].
  destruct (bool_decide (c = "-"%char)); [|apply Hmag].
  destruct (Py.magnitude base r) as [v|e'] eqn:Hr; simpl; [congruence|].
  intros [= <-]. by eapply Hmag.
Qed.

(** C8. The numeric formatter raises its exception exactly when the
    format is neither ['dec'] nor ['hex']: it fails for every other
    format name, whatever the number, and for the two supported formats
    it never takes that branch. *)
Theorem format2bin_unsupported_format (num numformat : string) (format_bits : Z) :
  format2bin num numformat format_bits
    = Raise (Exception "format2bin: not supported format provided.")
  ↔ numformat ≠ "dec" ∧ numformat ≠ "hex".
Proof.
  unfold format2bin. split.
  - destruct (decide (numformat = "dec")) as [->|Hdec].
    { destruct (Py.int 10 num) as [n|e] eqn:Hn; simpl; [congruence|].
      apply int_raises in Hn. subst e. congruence. }
    destruct (decide (numformat = "hex")) as [->|Hhex]; [|done].
    destruct (Py.int 16 num) as [n|e] eqn:Hn; simpl; [congruence|].
    apply int_raises in Hn. subst e. congruence.
  - intros [Hdec Hhex].
    destruct (decide (numformat = "dec")); [done|].
    destruct (decide (numformat = "hex")); done.
Qed.

End formatter.

(** * The first pass *)

Section first_pass_facts.

Lemma bind_Ok {A B : Type} (a : A) (k : A → result B) : (Ok a ≫= k) = k a.
Proof. reflexivity. Qed.

Lemma bind_Raise {A B : Type} (e : exn) (k : A → result B) :
  (Raise e ≫= k) = Raise e.
Proof. reflexivity. Qed.

Lemma first_pass_line_nil (st : Z * gmap string Z) :
  first_pass_line [] st = Raise IndexError.
Proof. by destruct st. Qed.

Lemma first_pass_line_end (rest : list string) (st : Z * gmap string Z) :
  first_pass_line ("end" :: rest) st = Ok (Return st).
Proof. by destruct st. Qed.

Lemma first_pass_line_label (lab : string) (rest : list string) (LC : Z)
    (table : gmap string Z) :
  islabel lab = true →
  first_pass_line (lab :: rest) (LC, table) = Ok (Next (LC + 1, <[lab := LC]> table)).
Proof. intros H. unfold first_pass_line. by rewrite index_0_cons, bind_Ok, H. Qed.

(** A line that is neither a label declaration nor a directive of the
    first pass takes one word. *)
Lemma first_pass_line_word (tok0 : string) (rest : list string) (LC : Z)
    (table : gmap string Z) :
  islabel tok0 = false → tok0 ≠ "org" → tok0 ≠ "end" →
  first_pass_line (tok0 :: rest) (LC, table) = Ok (Next (LC + 1, table)).
Proof.
  intros H Horg Hend. unfold first_pass_line.
  rewrite index_0_cons, bind_Ok, H.
  destruct (decide (tok0 = "org")); [done|].
  destruct (decide (tok0 = "end")); done.
Qed.

(** The first pass returns at a line that starts with [end] only. *)
Lemma first_pass_line_return (line : list string) (st st' : Z * gmap string Z) :
  first_pass_line line st = Ok (Return st') → head line = Some "end" ∧ st' = st.
Proof.
  destruct st as [LC table], line as [|tok0 rest]; [done|].
  unfold first_pass_line. rewrite index_0_cons, bind_Ok.
  destruct (islabel tok0); [done|].
  destruct (decide (tok0 = "org")).
  { destruct (Py.index_back _ _) as [tok|]; simpl; [|done].
    by destruct (Py.int 16 tok). }
  destruct (decide (tok0 = "end")) as [->|]; [|done].
  by intros [= <-].
Qed.

(** Without a line that starts with [end], the loop of the first pass
    runs to the last line or fails. *)
Lemma first_pass_no_return (asm : list (list string)) (st st' : Z * gmap string Z) :
  Forall (λ l, head l ≠ Some "end") asm →
  run_lines first_pass_line asm st ≠ Ok (Return st').
Proof.
  intros Hall. revert st. induction Hall as [|line asm Hline _ IH]; intros st; simpl.
  { done. }
  destruct (first_pass_line line st) as [[s|s]|e] eqn:Hstep; [apply IH| |done].
  by apply first_pass_line_return in Hstep as [? _].
Qed.

(** Every entry of the symbol table was there before, or is the
    location counter of the first pass at a line that declares it. *)
Lemma first_pass_recorded (asm : list (list string)) (st : Z * gmap string Z)
    (f : flow (Z * gmap string Z)) (lab : string) (a : Z) :
  run_lines first_pass_line asm st = Ok f →
  (flow_state f).2 !! lab = Some a →
  st.2 !! lab = Some a
  ∨ ∃ (j : nat) (rest : list string) (table_j : gmap string Z),
      asm !! j = Some (lab :: rest)
      ∧ run_lines first_pass_line (take j asm) st = Ok (Next (a, table_j)).
Proof.
  revert st. induction asm as [|line asm IH]; intros st; simpl.
  { intros [= <-] Ha. by left. }
  destruct (first_pass_line line st) as [[s|s]|e] eqn:Hstep; [| |done].
  - intros Hrun Ha. destruct (IH s Hrun Ha) as [Hs|(j & rest & tj & Hj & Hpre)].
    + destruct st as [LC table], line as [|tok0 rest]; [done|].
      unfold first_pass_line in Hstep. rewrite index_0_cons, bind_Ok in Hstep.
      destruct (islabel tok0) eqn:Hlab.
      * injection Hstep as <-. simpl in Hs.
        destruct (decide (tok0 = lab)) as [->|Hne].
        -- rewrite lookup_insert_eq in Hs. injection Hs as ->.
           right. by exists 0%nat, rest, table.
        -- rewrite lookup_insert_ne in Hs by done. by left.
      * destruct (decide (tok0 = "org")).
        { destruct (Py.index_back _ _) as [tok|]; simpl in Hstep; [|done].
          destruct (Py.int 16 tok); simpl in Hstep; [|done].
          injection Hstep as <-. by left. }
        destruct (decide (tok0 = "end")); [done|].
        injection Hstep as <-. by left.
    + right. exists (Datatypes.S j), rest, tj. split; [done|].
      simpl. by rewrite Hstep.
  - intros [= <-] Ha. apply first_pass_line_return in Hstep as [_ ->]. by left.
Qed.

End first_pass_facts.

(** * The second pass *)

Section second_pass_facts.

Variables mri_table rri_table ioi_table : gmap string string.

(** The first steps of the body on a line that has a first token. *)
Ltac pass2_head :=
  unfold second_pass_line;
  rewrite index_0_cons, bind_Ok, format2bin_str, bind_Ok;
  fold address.

(** The same, up to the dispatch on the effective token [tok]. *)
Ltac pass2_dispatch Heff :=
  pass2_head; unfold effective_token in Heff;
  unfold Py.index; rewrite Heff, bind_Ok.

Lemma second_pass_line_nil (table : gmap string Z) (st : Z * gmap string string) :
  second_pass_line mri_table rri_table ioi_table table [] st = Raise IndexError.
Proof. by destruct st. Qed.

Lemma second_pass_line_end (table : gmap string Z) (rest : list string)
    (st : Z * gmap string string) :
  second_pass_line mri_table rri_table ioi_table table ("end" :: rest) st
  = Ok (Return st).
Proof. destruct st as [LC bin]. pass2_head. reflexivity. Qed.

(** C6. The line [dec 25] makes the second pass store the word
    [0000000000011001] under the address key of the current location,
    the line [hex 19] stores the same word, and both advance the
    location counter by one. *)
Theorem dec_25_hex_19 (table : gmap string Z) (LC : Z) (bin : gmap string string) :
  second_pass_line mri_table rri_table ioi_table table ["dec"; "25"] (LC, bin)
    = Ok (Next (LC + 1, <[address LC := "0000000000011001"]> bin))
  ∧ second_pass_line mri_table rri_table ioi_table table ["hex"; "19"] (LC, bin)
    = Ok (Next (LC + 1, <[address LC := "0000000000011001"]> bin)).
Proof. split; pass2_head; reflexivity. Qed.

(** C7. A line whose effective token is no directive and is in none of
    the three instruction tables makes the second pass advance the
    location counter by one and leaves the binary image as it was; no
    exception is raised. *)
Theorem unrecognized_token_skipped (table : gmap string Z) (line : list string)
    (tok : string) (LC : Z) (bin : gmap string string) :
  effective_token line = Some tok →
  tok ∉ pseudo_table →
  mri_table !! tok = None →
  rri_table !! tok = None →
  ioi_table !! tok = None →
  second_pass_line mri_table rri_table ioi_table table line (LC, bin)
  = Ok (Next (LC + 1, bin)).
Proof.
  intros Heff Hps Hm Hr Hi. destruct line as [|tok0 rest]; [done|].
  pass2_dispatch Heff.
  rewrite bool_decide_eq_false_2 by done. by rewrite Hm, Hr, Hi.
Qed.

(** A memory-reference line whose last token is not the capital [I]:
    the word has the bit [0], the opcode, and the address of the label
    named by the last token. *)
Lemma second_pass_line_mri_label (table : gmap string Z) (line : list string)
    (mnemonic opcode x : string) (a LC : Z) (bin : gmap string string) :
  effective_token line = Some mnemonic →
  mnemonic ∉ pseudo_table →
  mri_table !! mnemonic = Some opcode →
  last line = Some x →
  x ≠ "I" →
  table !! (x +:+ ",") = Some a →
  second_pass_line mri_table rri_table ioi_table table line (LC, bin)
  = Ok (Next (LC + 1,
         <[address LC := "0" +:+ opcode +:+ Fmt.zfill (Fmt.format_b a) 12]> bin)).
Proof.
  intros Heff Hps Hm Hlast Hx Ha. destruct line as [|tok0 rest]; [done|].
  pass2_dispatch Heff.
  rewrite bool_decide_eq_false_2 by done. rewrite Hm.
  rewrite index_back_1, Hlast, bind_Ok.
  destruct (decide (x = "I")); [done|]. rewrite bind_Ok.
  by rewrite Ha, format2bin_str, bind_Ok.
Qed.

(** The same line when the last token names no label: the token is read
    as a hexadecimal address. *)
Lemma second_pass_line_mri_hex (table : gmap string Z) (line : list string)
    (mnemonic opcode x : string) (LC : Z) (bin : gmap string string) :
  effective_token line = Some mnemonic →
  mnemonic ∉ pseudo_table →
  mri_table !! mnemonic = Some opcode →
  last line = Some x →
  x ≠ "I" →
  table !! (x +:+ ",") = None →
  second_pass_line mri_table rri_table ioi_table table line (LC, bin)
  = (a ← format2bin x "hex" 12;
     Ok (Next (LC + 1, <[address LC := "0" +:+ opcode +:+ a]> bin))).
Proof.
  intros Heff Hps Hm Hlast Hx Ha. destruct line as [|tok0 rest]; [done|].
  pass2_dispatch Heff.
  rewrite bool_decide_eq_false_2 by done. rewrite Hm.
  rewrite index_back_1, Hlast, bind_Ok.
  destruct (decide (x = "I")); [done|]. rewrite bind_Ok.
  by rewrite Ha.
Qed.

(** A register-reference or input-output line stores the word of its
    table. *)
Lemma second_pass_line_fixed (table : gmap string Z) (line : list string)
    (mnemonic : string) (LC : Z) (bin : gmap string string) :
  effective_token line = Some mnemonic →
  mnemonic ∉ pseudo_table →
  mri_table !! mnemonic = None →
  is_Some (rri_table !! mnemonic) ∨ is_Some (ioi_table !! mnemonic) →
  ∃ word,
    second_pass_line mri_table rri_table ioi_table table line (LC, bin)
    = Ok (Next (LC + 1, <[address LC := word]> bin)).
Proof.
  intros Heff Hps Hm Hfixed. destruct line as [|tok0 rest]; [done|].
  pass2_dispatch Heff.
  rewrite bool_decide_eq_false_2 by done. rewrite Hm.
  destruct (rri_table !! mnemonic) as [w|]; [by eexists|].
  destruct Hfixed as [[? [=]]|[w ->]]. by eexists.
Qed.


End second_pass_facts.

(** * The assembler *)

Section assembler_facts.

Variables mri_table rri_table ioi_table : gmap string string.

Lemma first_pass_end (pre post : list (list string)) (rest : list string)
    (table : gmap string Z) :
  first_pass (pre ++ ("end" :: rest) :: post) table
  = first_pass (pre ++ [("end" :: rest)]) table.
Proof.
  unfold first_pass. rewrite (run_lines_return first_pass_line pre post); [done|].
  intros s. eexists. apply first_pass_line_end.
Qed.

Lemma second_pass_end (pre post : list (list string)) (rest : list string)
    (table : gmap string Z) (bin : gmap string string) :
  second_pass mri_table rri_table ioi_table table (pre ++ ("end" :: rest) :: post) bin
  = second_pass mri_table rri_table ioi_table table (pre ++ [("end" :: rest)]) bin.
Proof.
  unfold second_pass. rewrite (run_lines_return _ pre post); [done|].
  intros s. eexists. apply second_pass_line_end.
Qed.

Lemma assemble_nonempty (pre post : list (list string)) (line : list string) :
  assemble mri_table rri_table ioi_table (pre ++ line :: post)
  = (r ← passes mri_table rri_table ioi_table (rm_comments (pre ++ line :: post));
     Ok r.2).
Proof.
  unfold assemble. destruct (decide _) as [Hnil|]; [|done]. by destruct pre.
Qed.

(** C2, as amended. A line whose first token is [end] ends both passes:
    the symbol table and the binary image of a source are those of the
    source cut after that line, whatever the later lines are, labels and
    mnemonics included. *)
Theorem end_terminates_both_passes (pre post : list (list string))
    (rest : list string) :
  passes mri_table rri_table ioi_table (rm_comments (pre ++ ("end" :: rest) :: post))
  = passes mri_table rri_table ioi_table (rm_comments (pre ++ [("end" :: rest)]))
  ∧ assemble mri_table rri_table ioi_table (pre ++ ("end" :: rest) :: post)
    = assemble mri_table rri_table ioi_table (pre ++ [("end" :: rest)]).
Proof.
  assert (passes mri_table rri_table ioi_table
            (rm_comments (pre ++ ("end" :: rest) :: post))
          = passes mri_table rri_table ioi_table
              (rm_comments (pre ++ [("end" :: rest)]))) as Hpasses.
  { rewrite !rm_comments_app. simpl. unfold passes.
    rewrite first_pass_end.
    destruct (first_pass _ _) as [table|e]; [|done].
    by rewrite !bind_Ok, second_pass_end. }
  split; [done|]. by rewrite !assemble_nonempty, Hpasses.
Qed.

Lemma passes_first_pass_raise (asm : list (list string)) (e : exn) :
  first_pass asm ∅ = Raise e →
  passes mri_table rri_table ioi_table asm = Raise e.
Proof. intros H. unfold passes. by rewrite H. Qed.

(** C5. A source with a line of zero tokens before any line that starts
    with [end] is not assembled: the run fails, and when the first pass
    gets to that line it fails there with the out-of-range access of
    reading token 0. *)
Theorem empty_line_fails (pre post : list (list string)) (line : list string) :
  rm_comment_line line = [] →
  Forall (λ l, head l ≠ Some "end") (rm_comments pre) →
  (∃ e, assemble mri_table rri_table ioi_table (pre ++ line :: post) = Raise e)
  ∧ (∀ st, run_lines first_pass_line (rm_comments pre) (0, ∅) = Ok (Next st) →
       assemble mri_table rri_table ioi_table (pre ++ line :: post)
       = Raise IndexError).
Proof.
  intros Hline Hpre.
  assert (∀ st, run_lines first_pass_line (rm_comments pre) (0, ∅) = Ok (Next st) →
            assemble mri_table rri_table ioi_table (pre ++ line :: post)
            = Raise IndexError) as Hreach.
  { intros st Hrun. rewrite assemble_nonempty, rm_comments_app.
    erewrite passes_first_pass_raise; [done|].
    unfold first_pass. rewrite run_lines_app, Hrun. simpl.
    by rewrite Hline, first_pass_line_nil. }
  split; [|done].
  destruct (run_lines first_pass_line (rm_comments pre) (0, ∅))
    as [[st|st]|e] eqn:Hrun.
  - eexists. by eapply Hreach.
  - by apply first_pass_no_return in Hrun.
  - exists e. rewrite assemble_nonempty, rm_comments_app.
    erewrite passes_first_pass_raise; [done|].
    unfold first_pass. by rewrite run_lines_app, Hrun.
Qed.


(** C3. A label that the first pass recorded has one address, the
    location counter of the first pass at a line that declares it, and
    every memory-reference line that names the label, at whatever
    position of the source (before its declaration or after it), makes
    the second pass store a word with that same address field: the
    symbol table is complete before the second pass starts.  The field
    has twelve bits when the address is below 4096. *)
Theorem label_reference_same_address (asm : list (list string))
    (table : gmap string Z) (x : string) (a : Z) :
  first_pass asm ∅ = Ok table →
  table !! (x +:+ ",") = Some a →
  x ≠ "I" →
  (∃ (j : nat) (rest : list string) (table_j : gmap string Z),
      asm !! j = Some ((x +:+ ",") :: rest)
      ∧ run_lines first_pass_line (take j asm) (0, ∅) = Ok (Next (a, table_j)))
  ∧ (∀ (i : nat) (line : list string) (mnemonic opcode : string) (LC : Z)
       (bin : gmap string string),
       asm !! i = Some line →
       effective_token line = Some mnemonic →
       mnemonic ∉ pseudo_table →
       mri_table !! mnemonic = Some opcode →
       last line = Some x →
       run_lines (second_pass_line mri_table rri_table ioi_table table)
         (take i asm) (0, ∅) = Ok (Next (LC, bin)) →
       run_lines (second_pass_line mri_table rri_table ioi_table table)
         (take (S i) asm) (0, ∅)
       = Ok (Next (LC + 1,
              <[address LC := "0" +:+ opcode +:+ Fmt.zfill (Fmt.format_b a) 12]> bin)))
  ∧ (0 ≤ a < 4096 → String.length (Fmt.zfill (Fmt.format_b a) 12) = 12%nat).
Proof.
  intros Hfirst Ha Hx. split; [|split].
  - unfold first_pass in Hfirst.
    destruct (run_lines first_pass_line asm (0, ∅)) as [f|e] eqn:Hrun; [|done].
    rewrite bind_Ok in Hfirst. injection Hfirst as <-.
    destruct (first_pass_recorded _ _ _ _ _ Hrun Ha) as [Hin|Hdecl]; [|done].
    simpl in Hin. by rewrite lookup_empty in Hin.
  - intros i line mnemonic opcode LC bin Hi Heff Hps Hm Hlast Hrun.
    rewrite (run_lines_take_S _ _ _ _ _ _ Hi Hrun).
    by rewrite (second_pass_line_mri_label _ _ _ _ _ mnemonic opcode x a).
  - intros Hrange. by apply (length_zfill_format_b a 12).
Qed.

(** What [plain_instruction] checks. *)
Lemma plain_instruction_spec (line : list string) :
  plain_instruction mri_table rri_table ioi_table line = true →
  ∃ tok0 rest,
    line = tok0 :: rest
    ∧ islabel tok0 = false
    ∧ (tok0 ∉ pseudo_table)
    ∧ (match mri_table !! tok0 with
       | Some _ => ∃ operand v, last line = Some operand ∧ Py.int 16 operand = Ok v
       | None => is_Some (rri_table !! tok0) ∨ is_Some (ioi_table !! tok0)
       end).
Proof.
  destruct line as [|tok0 rest]; [done|].
  change (plain_instruction mri_table rri_table ioi_table (tok0 :: rest))
    with (negb (islabel tok0) && negb (bool_decide (tok0 ∈ pseudo_table))
          && match mri_table !! tok0 with
             | Some _ =>
                 match last (tok0 :: rest) with
                 | Some operand => is_ok (Py.int 16 operand)
                 | None => false
                 end
             | None =>
                 bool_decide (is_Some (rri_table !! tok0))
                 || bool_decide (is_Some (ioi_table !! tok0))
             end).
  intros [[Hlab%negb_true_iff Hps%negb_true_iff]%andb_prop Hinstr]%andb_prop.
  apply bool_decide_eq_false in Hps.
  exists tok0, rest. split; [done|]. split; [done|]. split; [done|].
  destruct (mri_table !! tok0) as [opcode|].
  - destruct (last (tok0 :: rest)) as [operand|]; [|done].
    destruct (Py.int 16 operand) as [v|] eqn:Hint; [|done].
    by exists operand, v.
  - apply orb_prop in Hinstr as [H%bool_decide_eq_true|H%bool_decide_eq_true];
      [by left|by right].
Qed.

Lemma plain_instruction_first (line : list string) (LC : Z) (table : gmap string Z) :
  plain_instruction mri_table rri_table ioi_table line = true →
  first_pass_line line (LC, table) = Ok (Next (LC + 1, table)).
Proof.
  intros (tok0 & rest & -> & Hlab & Hps & _)%plain_instruction_spec.
  apply first_pass_line_word; [done| |].
  - intros ->. apply Hps. unfold pseudo_table. set_solver.
  - intros ->. apply Hps. unfold pseudo_table. set_solver.
Qed.

Lemma plain_instruction_second (line : list string) (LC : Z)
    (bin : gmap string string) :
  plain_instruction mri_table rri_table ioi_table line = true →
  ∃ word,
    second_pass_line mri_table rri_table ioi_table ∅ line (LC, bin)
    = Ok (Next (LC + 1, <[address LC := word]> bin)).
Proof.
  intros (tok0 & rest & Hline & Hlab & Hps & Hinstr)%plain_instruction_spec.
  assert (effective_token line = Some tok0) as Heff
    by (by rewrite Hline; unfold effective_token; rewrite Hlab).
  destruct (mri_table !! tok0) as [opcode|] eqn:Hm.
  - destruct Hinstr as (operand & v & Hlast & Hint).
    assert (operand ≠ "I") as Hne by (by intros ->).
    rewrite (second_pass_line_mri_hex _ _ _ _ _ tok0 opcode operand)
      by (done || apply lookup_empty).
    unfold format2bin. simpl. rewrite Hint. by eexists.
  - by apply (second_pass_line_fixed _ _ _ _ _ tok0).
Qed.

Lemma first_pass_plain (asm : list (list string)) (LC : Z) (table : gmap string Z) :
  forallb (plain_instruction mri_table rri_table ioi_table) asm = true →
  run_lines first_pass_line asm (LC, table)
  = Ok (Next (LC + Z.of_nat (List.length asm), table)).
Proof.
  revert LC. induction asm as [|line asm IH]; intros LC.
  { intros _. simpl. do 3 f_equal. lia. }
  intros [Hline Hrest]%andb_prop.
  rewrite run_lines_cons, (plain_instruction_first _ _ _ Hline), IH by done.
  do 3 f_equal. simpl List.length. lia.
Qed.

(** On recognized instructions the second pass stores one word per line,
    at consecutive locations. *)
Lemma second_pass_plain (asm : list (list string)) (LC : Z)
    (bin : gmap string string) :
  0 ≤ LC →
  (∀ key, key ∈ dom bin → ∃ m, 0 ≤ m < LC ∧ key = address m) →
  forallb (plain_instruction mri_table rri_table ioi_table) asm = true →
  ∃ bin',
    run_lines (second_pass_line mri_table rri_table ioi_table ∅) asm (LC, bin)
    = Ok (Next (LC + Z.of_nat (List.length asm), bin'))
    ∧ size bin' = (size bin + List.length asm)%nat
    ∧ (∀ key, key ∈ dom bin' ↔
         key ∈ dom bin
         ∨ ∃ m, LC ≤ m < LC + Z.of_nat (List.length asm) ∧ key = address m).
Proof.
  revert LC bin. induction asm as [|line asm IH]; intros LC bin HLC Hbelow.
  { intros _. simpl. exists bin. split; [do 3 f_equal; lia|]. split; [lia|].
    intros key. split; [by left|]. intros [?|(m & ? & _)]; [done|lia]. }
  intros [Hline Hrest]%andb_prop. rewrite run_lines_cons. simpl List.length.
  destruct (plain_instruction_second _ LC bin Hline) as [word ->].
  assert (bin !! address LC = None) as Hfresh.
  { apply not_elem_of_dom. intros (m & Hm & Heq)%Hbelow.
    apply address_inj in Heq; lia. }
  destruct (IH (LC + 1) (<[address LC := word]> bin)) as (bin' & Hrun & Hsize & Hdom);
    [lia| |done|].
  { intros key. rewrite dom_insert_L, elem_of_union, elem_of_singleton.
    intros [->|(m & Hm & ->)%Hbelow]; [exists LC|exists m]; split; (done || lia). }
  exists bin'. split; [rewrite Hrun; do 3 f_equal; lia|]. split.
  { rewrite Hsize, map_size_insert_None by done. lia. }
  intros key. rewrite Hdom, dom_insert_L, elem_of_union, elem_of_singleton.
  split.
  - intros [[->|Hin]|(m & Hm & ->)].
    + right. exists LC. split; [lia|done].
    + by left.
    + right. exists m. split; [lia|done].
  - intros [Hin|(m & Hm & ->)]; [by left; right|].
    destruct (decide (m = LC)) as [->|Hne]; [by left; left|].
    right. exists m. split; [lia|done].
Qed.

(** C4. A non-empty source whose lines are all recognized instructions
    is assembled, the binary image has exactly one entry per line, and
    its keys are the address keys of the consecutive locations 0, 1, 2,
    ..., starting at [000000000000]; they have twelve bits each when the
    source has at most 4096 lines. *)
Theorem plain_source_contiguous (asm : list (list string)) :
  asm ≠ [] →
  forallb (plain_instruction mri_table rri_table ioi_table) (rm_comments asm) = true →
  ∃ bin,
    assemble mri_table rri_table ioi_table asm = Ok bin
    ∧ size bin = List.length asm
    ∧ (∀ key, key ∈ dom bin ↔
         ∃ k : nat, (k < List.length asm)%nat ∧ key = address (Z.of_nat k))
    ∧ is_Some (bin !! "000000000000")
    ∧ ((List.length asm ≤ 4096)%nat →
       ∀ key, key ∈ dom bin → String.length key = 12%nat).
Proof.
  intros Hne Hplain.
  destruct (second_pass_plain (rm_comments asm) 0 ∅) as (bin & Hrun & Hsize & Hdom);
    [lia|set_solver|done|].
  rewrite length_rm_comments in Hsize, Hdom.
  assert (∀ key, key ∈ dom bin ↔
            ∃ k : nat, (k < List.length asm)%nat ∧ key = address (Z.of_nat k))
    as Hkeys.
  { intros key. rewrite Hdom. split.
    - intros [Hin|(m & Hm & ->)]; [set_solver|].
      exists (Z.to_nat m). split; [lia|]. f_equal. lia.
    - intros (k & Hk & ->). right. exists (Z.of_nat k). split; [lia|done]. }
  exists bin. split; [|split; [|split; [|split]]].
  - unfold assemble. destruct (decide (asm = [])); [done|].
    unfold passes, first_pass, second_pass.
    rewrite first_pass_plain by done. rewrite !bind_Ok. simpl.
    by rewrite Hrun.
  - rewrite Hsize, map_size_empty. lia.
  - done.
  - apply elem_of_dom, Hkeys. exists 0%nat. split; [|done].
    destruct asm; [done|simpl; lia].
  - intros Hlen key (k & Hk & ->)%Hkeys. apply length_address. lia.
Qed.

End assembler_facts.

(** * Indirect addressing *)

Section indirection.

Variables mri_table rri_table ioi_table : gmap string string.

Lemma isupper_lower_char (c : ascii) : Py.isupper (Py.lower_char c) = false.
Proof. destruct c as [[] [] [] [] [] [] [] []]; reflexivity. Qed.

Lemma no_upper_lower (s : string) : no_upper (Py.lower s) = true.
Proof.
  induction s as [|c s IH]; simpl; [done|].
  by rewrite isupper_lower_char, IH.
Qed.

Lemma no_upper_app (s1 s2 : string) :
  no_upper (s1 +:+ s2) = no_upper s1 && no_upper s2.
Proof.
  induction s1 as [|c s1 IH]; simpl; [done|]. by rewrite IH, andb_assoc.
Qed.

Lemma split_from_no_upper (s cur : string) :
  no_upper cur = true → no_upper s = true →
  Forall (λ t, no_upper t = true) (Py.split_from cur s).
Proof.
  revert cur. induction s as [|c s IH]; intros cur Hcur; simpl.
  { intros _. destruct (decide (cur = "")); by repeat constructor. }
  intros [Hc Hs]%andb_prop.
  destruct (Py.isspace c).
  - destruct (decide (cur = "")); [by apply IH|].
    constructor; [done|by apply IH].
  - apply IH; [|done]. rewrite no_upper_app, Hcur. simpl. by rewrite Hc.
Qed.

(** The tokens of [read_code] have no capital letter. *)
Lemma tokenize_no_upper (s : string) :
  Forall (λ t, no_upper t = true) (tokenize s).
Proof. apply split_from_no_upper; [done|apply no_upper_lower]. Qed.

(** So none of them is the capital [I] that [__second_pass] compares the
    last token with. *)
Lemma tokenize_never_I (s : string) : "I" ∉ tokenize s.
Proof.
  intros Hin. pose proof (tokenize_no_upper s) as Hall.
  rewrite Forall_forall in Hall. by apply Hall in Hin.
Qed.

(** On a line of such tokens every word of a memory-reference
    instruction starts with the bit [0]: the branch that sets the bit to
    [1] is never taken. *)
Lemma indirect_bit_never_set (table : gmap string Z) (line : list string)
    (mnemonic opcode : string) (LC : Z) (bin : gmap string string)
    (st : Z * gmap string string) :
  Forall (λ t, no_upper t = true) line →
  effective_token line = Some mnemonic →
  mnemonic ∉ pseudo_table →
  mri_table !! mnemonic = Some opcode →
  second_pass_line mri_table rri_table ioi_table table line (LC, bin) = Ok (Next st) →
  ∃ field, st = (LC + 1, <[address LC := "0" +:+ opcode +:+ field]> bin).
Proof.
  intros Hlow Heff Hps Hm. destruct line as [|tok0 rest] eqn:Hline; [done|].
  rewrite <- Hline in *.
  destruct (last line) as [x|] eqn:Hlast;
    [|apply last_None in Hlast; congruence].
  assert (x ≠ "I") as Hx.
  { intros ->. apply last_Some in Hlast as [l' Hl'].
    rewrite Forall_forall in Hlow.
    assert ("I" ∈ line) as Hin by (rewrite Hl'; set_solver).
    by apply Hlow in Hin. }
  destruct (table !! (x +:+ ",")) as [a|] eqn:Ha.
  - rewrite (second_pass_line_mri_label _ _ _ _ _ mnemonic opcode x a) by done.
    intros [= <-]. by eexists.
  - rewrite (second_pass_line_mri_hex _ _ _ _ _ mnemonic opcode x) by done.
    destruct (format2bin x "hex" 12) as [field|]; [|done].
    rewrite bind_Ok. intros [= <-]. by eexists.
Qed.

End indirection.

(** C1. The source line [lda 100 i], and [LDA 100 I] which reads as the
    same tokens, is not assembled as an indirect reference to 100: the
    last token [i] is taken for the operand, so the assembly fails when no
    label [i] exists, and with a label [i] at location 0 the word stored is
    [0 010 000000000000], bit 0 with the address of that label. *)
Theorem trailing_i_is_the_operand :
  read_code ["lda 100 i"] = [["lda"; "100"; "i"]]
  ∧ read_code ["LDA 100 I"] = [["lda"; "100"; "i"]]
  ∧ assemble mri_example rri_example ioi_example (read_code ["lda 100 i"])
    = Raise ValueError
  ∧ assemble mri_example rri_example ioi_example (read_code ["lda 100 i"])
    ≠ Ok {[ "000000000000" := "1010000100000000" ]}
  ∧ assemble mri_example rri_example ioi_example
      (read_code ["i, hex 5"; "lda 100 i"])
    = Ok {[ "000000000000" := "0000000000000101";
            "000000000001" := "0010000000000000" ]}.
Proof.
  split; [vm_compute; reflexivity|]. split; [vm_compute; reflexivity|].
  split; [vm_compute; reflexivity|]. split; [vm_compute; discriminate|].
  vm_compute; reflexivity.
Qed.

(** * The statements on example sources *)

Example int_16_0 : Py.int 16 "0" = Ok 0.
Proof. reflexivity. Qed.

Example int_16_1 : Py.int 16 "1" = Ok 1.
Proof. reflexivity. Qed.

(** An address of thirteen bits: the formatter pads and never truncates. *)
Example address_4096 : address 4096 = "1000000000000".
Proof. reflexivity. Qed.

(** [org 64] puts the next word at location 0x64. *)
Example org_64 :
  assemble mri_example rri_example ioi_example (read_code ["ORG 64"; "CLA"])
  = Ok {[ "000001100100" := "0111100000000000" ]}.
Proof. vm_compute; reflexivity. Qed.

(** A program with a label used before and after its declaration, a
    comment, an unknown mnemonic that takes a word, and lines after [end]
    that are not read. *)
Example small_program :
  assemble mri_example rri_example ioi_example
    (read_code ["ORG 10"; "LDA x / load"; "x, DEC 25"; "ADD x"; "nop"; "HLT";
                "END"; ""; "y,"])
  = Ok {[ "000000010000" := "0010000000010001";
          "000000010001" := "0000000000011001";
          "000000010010" := "0001000000010001";
          "000000010100" := "0111000000000001" ]}.
Proof. vm_compute; reflexivity. Qed.

(** C2, as stated, fails on a labelled [end]: the effective token of the
    line [l, end] is [end] and the second pass returns there, but the first
    pass takes the line for the declaration of [l,] and goes on, so the
    label [m,] of the next line gets into the symbol table. *)
Lemma end_after_label_counterexample :
  effective_token ["l,"; "end"] = Some "end"
  ∧ passes mri_example rri_example ioi_example [["l,"; "end"]; ["m,"; "cla"]]
    = Ok ({[ "l," := 0; "m," := 1 ]}, ∅)
  ∧ passes mri_example rri_example ioi_example [["l,"; "end"]]
    = Ok ({[ "l," := 0 ]}, ∅)
  ∧ passes mri_example rri_example ioi_example [["l,"; "end"]; ["m,"; "cla"]]
    ≠ passes mri_example rri_example ioi_example [["l,"; "end"]].
Proof.
  split; [reflexivity|]. split; [vm_compute; reflexivity|].
  split; [vm_compute; reflexivity|]. vm_compute. discriminate.
Qed.

(** C3 on a source that uses the label [x] before and after its
    declaration at location 1. *)
Lemma label_reference_same_address_witness :
  let asm := [["lda"; "x"]; ["x,"; "dec"; "25"]; ["add"; "x"]] in
  let table : gmap string Z := {[ "x," := 1 ]} in
  first_pass asm ∅ = Ok table
  ∧ table !! "x," = Some 1
  ∧ run_lines (second_pass_line mri_example rri_example ioi_example table)
      (take 1 asm) (0, ∅)
    = Ok (Next (0 + 1,
           <[address 0 := "0" +:+ "010" +:+ Fmt.zfill (Fmt.format_b 1) 12]> ∅))
  ∧ run_lines (second_pass_line mri_example rri_example ioi_example table)
      (take 3 asm) (0, ∅)
    = Ok (Next (2 + 1,
           <[address 2 := "0" +:+ "001" +:+ Fmt.zfill (Fmt.format_b 1) 12]>
             {[ "000000000000" := "0010000000000001";
                "000000000001" := "0000000000011001" ]})).
Proof.
  intros asm table.
  assert (first_pass asm ∅ = Ok table) as Hfirst by (vm_compute; reflexivity).
  assert (table !! ("x" +:+ ",") = Some 1) as Hx by (vm_compute; reflexivity).
  assert ("x" ≠ "I") as Hne by discriminate.
  destruct (label_reference_same_address mri_example rri_example ioi_example
              asm table "x" 1 Hfirst Hx Hne) as (_ & Huse & _).
  split; [exact Hfirst|]. split; [exact Hx|]. split.
  - apply (Huse 0%nat ["lda"; "x"] "lda" "010" 0 ∅);
      [reflexivity|reflexivity|compute_done|
       vm_compute; reflexivity|reflexivity|reflexivity].
  - apply (Huse 2%nat ["add"; "x"] "add" "001" 2);
      [reflexivity|reflexivity|compute_done|
       vm_compute; reflexivity|reflexivity|vm_compute; reflexivity].
Defined.

(** C4 on a source of three instructions. *)
Lemma plain_source_contiguous_witness :
  let asm := [["cla"]; ["lda"; "1f"]; ["inp"; "/"; "read"]] in
  asm ≠ []
  ∧ forallb (plain_instruction mri_example rri_example ioi_example)
      (rm_comments asm) = true
  ∧ ∃ bin,
      assemble mri_example rri_example ioi_example asm = Ok bin
      ∧ size bin = 3%nat
      ∧ (∀ key, key ∈ dom bin ↔
           ∃ k : nat, (k < 3)%nat ∧ key = address (Z.of_nat k))
      ∧ is_Some (bin !! "000000000000")
      ∧ ((3 ≤ 4096)%nat → ∀ key, key ∈ dom bin → String.length key = 12%nat).
Proof.
  intros asm.
  assert (asm ≠ []) as Hne by discriminate.
  assert (forallb (plain_instruction mri_example rri_example ioi_example)
            (rm_comments asm) = true) as Hplain by (vm_compute; reflexivity).
  split; [exact Hne|]. split; [exact Hplain|].
  exact (plain_source_contiguous mri_example rri_example ioi_example asm Hne Hplain).
Defined.

(** C5 on a source with an empty line between an instruction and [end]. *)
Lemma empty_line_fails_witness :
  rm_comment_line [] = []
  ∧ Forall (λ l, head l ≠ Some "end") (rm_comments [["cla"]])
  ∧ (∃ e, assemble mri_example rri_example ioi_example
            ([["cla"]] ++ [] :: [["end"]]) = Raise e)
  ∧ (∀ st, run_lines first_pass_line (rm_comments [["cla"]]) (0, ∅) = Ok (Next st) →
       assemble mri_example rri_example ioi_example ([["cla"]] ++ [] :: [["end"]])
       = Raise IndexError).
Proof.
  assert (Forall (λ l : list string, head l ≠ Some "end") (rm_comments [["cla"]]))
    as Hpre by (repeat constructor; discriminate).
  split; [reflexivity|]. split; [exact Hpre|].
  exact (empty_line_fails mri_example rri_example ioi_example
           [["cla"]] [["end"]] [] eq_refl Hpre).
Defined.

(** C7 on a labelled line with an unknown mnemonic. *)
Lemma unrecognized_token_skipped_witness :
  effective_token ["loop,"; "foo"; "100"] = Some "foo"
  ∧ ("foo" ∉ pseudo_table)
  ∧ second_pass_line mri_example rri_example ioi_example ∅
      ["loop,"; "foo"; "100"] (5, ∅)
    = Ok (Next (5 + 1, ∅)).
Proof.
  assert ("foo" ∉ pseudo_table) as Hps by compute_done.
  split; [reflexivity|]. split; [exact Hps|].
  apply (unrecognized_token_skipped mri_example rri_example ioi_example ∅
           ["loop,"; "foo"; "100"] "foo" 5 ∅);
    [reflexivity|exact Hps|vm_compute; reflexivity..].
Defined.



(** * Further properties: the tokenizer *)

Section tokenizer.

Lemma no_space_app (s1 s2 : string) :
  no_space (s1 +:+ s2) = no_space s1 && no_space s2.
Proof.
  induction s1 as [|c s1 IH]; simpl; [done|]. by rewrite IH, andb_assoc.
Qed.

Lemma string_app_cons (c : ascii) (s t : string) :
  String c s +:+ t = String c (s +:+ t).
Proof. reflexivity. Qed.

Lemma string_app_nil_r (s : string) : s +:+ "" = s.
Proof. induction s as [|c s IH]; [done|]. by rewrite string_app_cons, IH. Qed.

Lemma string_app_assoc (s1 s2 s3 : string) :
  (s1 +:+ s2) +:+ s3 = s1 +:+ (s2 +:+ s3).
Proof.
  induction s1 as [|c s1 IH]; [done|]. by rewrite !string_app_cons, IH.
Qed.

Lemma string_app_not_nil (s : string) (c : ascii) : s +:+ String c "" ≠ "".
Proof. by destruct s. Qed.

Lemma split_from_tokens (s cur : string) :
  no_space cur = true →
  Forall (λ t, is_token t = true) (Py.split_from cur s).
Proof.
  revert cur. induction s as [|c s IH]; intros cur Hcur; simpl.
  { destruct (decide (cur = "")) as [|Hne]; [constructor|].
    repeat constructor. unfold is_token.
    by rewrite bool_decide_eq_false_2, Hcur. }
  destruct (Py.isspace c) eqn:Hc.
  - destruct (decide (cur = "")) as [|Hne]; [by apply IH|].
    constructor; [|by apply IH].
    unfold is_token. by rewrite bool_decide_eq_false_2, Hcur.
  - apply IH. rewrite no_space_app, Hcur. simpl. by rewrite Hc.
Qed.

Lemma tokenize_is_token (s : string) :
  Forall (λ t, is_token t = true) (tokenize s).
Proof. by apply split_from_tokens. Qed.

(** X1. Every token that [read_code] keeps is not empty, has no white
    space and has no capital letter. *)
Theorem tokenize_tokens (s : string) :
  Forall (λ t, is_token t = true ∧ no_upper t = true) (tokenize s).
Proof.
  apply Forall_and. split.
  - unfold tokenize, Py.split. by apply split_from_tokens.
  - apply tokenize_no_upper.
Qed.

Lemma split_from_word (t s cur : string) :
  no_space t = true →
  Py.split_from cur (t +:+ s) = Py.split_from (cur +:+ t) s.
Proof.
  revert cur. induction t as [|c t IH]; intros cur; simpl.
  { by rewrite string_app_nil_r. }
  intros [Hc Ht]%andb_prop. apply negb_true_iff in Hc. rewrite Hc.
  rewrite IH by done. by rewrite string_app_assoc.
Qed.

Lemma split_join (toks : list string) :
  Forall (λ t, is_token t = true) toks →
  Py.split (PyStr.join toks) = toks.
Proof.
  unfold Py.split. induction 1 as [|t rest Ht Hrest IH]; [done|].
  apply andb_prop in Ht as [Hne%negb_true_iff%bool_decide_eq_false Hns].
  destruct rest as [|t' rest].
  - change (PyStr.join [t]) with t. rewrite <- (string_app_nil_r t) at 1.
    rewrite split_from_word by done.
    change (Py.split_from ("" +:+ t) "") with (if decide (t = "") then [] else [t]).
    by destruct (decide (t = "")).
  - change (PyStr.join (t :: t' :: rest))
      with (t +:+ String " " (PyStr.join (t' :: rest))).
    rewrite split_from_word by done.
    change (Py.split_from ("" +:+ t) (String " " (PyStr.join (t' :: rest))))
      with (if decide (t = "") then Py.split_from "" (PyStr.join (t' :: rest))
            else t :: Py.split_from "" (PyStr.join (t' :: rest))).
    destruct (decide (t = "")); [done|]. by rewrite IH.
Qed.

Lemma lower_no_upper (s : string) : no_upper s = true → Py.lower s = s.
Proof.
  induction s as [|c s IH]; simpl; [done|].
  intros [Hc Hs]%andb_prop. apply negb_true_iff in Hc.
  unfold Py.lower_char. by rewrite Hc, IH.
Qed.

Lemma rstrip_word (t : string) :
  is_token t = true → Py.rstrip t = t.
Proof.
  intros [_ Hns]%andb_prop. induction t as [|c t IH]; [done|].
  simpl in *. apply andb_prop in Hns as [Hc%negb_true_iff Ht].
  rewrite IH by done. rewrite Hc. by destruct t.
Qed.

Lemma rstrip_app_word (s t : string) :
  is_token t = true → Py.rstrip (s +:+ t) = s +:+ t.
Proof.
  intros Ht. induction s as [|c s IH]; [by apply rstrip_word|].
  rewrite string_app_cons.
  change (Py.rstrip (String c (s +:+ t)))
    with (match Py.rstrip (s +:+ t) with
          | EmptyString => if Py.isspace c then EmptyString else String c EmptyString
          | r => String c r
          end).
  rewrite IH. destruct (s +:+ t) eqn:Hst; [|done].
  apply andb_prop in Ht as [Hne%negb_true_iff%bool_decide_eq_false _].
  destruct s; [done|]. by rewrite string_app_cons in Hst.
Qed.

Lemma join_last (toks : list string) :
  toks ≠ [] →
  Forall (λ t, is_token t = true) toks →
  ∃ s t, PyStr.join toks = s +:+ t ∧ is_token t = true.
Proof.
  intros Hne Hall. induction Hall as [|t rest Ht Hrest IH]; [done|].
  destruct rest as [|t' rest].
  - by exists "", t.
  - destruct IH as (s & u & Hs & Hu); [done|].
    exists (t +:+ String " " s), u. split; [|done].
    change (PyStr.join (t :: t' :: rest))
      with (t +:+ String " " (PyStr.join (t' :: rest))).
    rewrite Hs. by rewrite string_app_assoc.
Qed.

Lemma no_upper_join (toks : list string) :
  Forall (λ t, no_upper t = true) toks → no_upper (PyStr.join toks) = true.
Proof.
  induction 1 as [|t rest Ht Hrest IH]; [done|].
  destruct rest as [|t' rest]; [done|].
  change (PyStr.join (t :: t' :: rest))
    with (t +:+ String " " (PyStr.join (t' :: rest))).
  rewrite no_upper_app, Ht.
  change (no_upper (String " " (PyStr.join (t' :: rest))))
    with (no_upper (PyStr.join (t' :: rest))).
  by rewrite IH.
Qed.

(** X2. Reading back a line written from tokens gives the tokens: for
    tokens that are not empty and have no white space and no capital
    letter, [read_code] of the tokens joined by single spaces is the list
    of the tokens. *)
Theorem tokenize_join (toks : list string) :
  Forall (λ t, is_token t = true ∧ no_upper t = true) toks →
  tokenize (PyStr.join toks) = toks.
Proof.
  intros [Htok Hlow]%Forall_and. unfold tokenize.
  assert (Py.rstrip (PyStr.join toks) = PyStr.join toks) as ->.
  { destruct toks as [|t rest]; [done|].
    destruct (join_last (t :: rest)) as (s & u & -> & Hu); [done|done|].
    by apply rstrip_app_word. }
  rewrite lower_no_upper by (by apply no_upper_join).
  by apply split_join.
Qed.

End tokenizer.

(** * Further properties: reading the source and the tables *)

Section reading.

Lemma has_char_app (c : ascii) (s1 s2 : string) :
  has_char c (s1 +:+ s2) = has_char c s1 || has_char c s2.
Proof.
  induction s1 as [|c' s1 IH]; [done|].
  rewrite string_app_cons. simpl. by rewrite IH, orb_assoc.
Qed.

Lemma endswith_app (p suffix : string) : PyStr.endswith (p +:+ suffix) suffix = true.
Proof.
  induction p as [|c p IH].
  - change ("" +:+ suffix) with suffix.
    destruct suffix; cbn [PyStr.endswith]; by rewrite bool_decide_eq_true_2.
  - rewrite string_app_cons. cbn [PyStr.endswith]. by rewrite IH, orb_true_r.
Qed.

Lemma endswith_prefix (s suffix : string) :
  PyStr.endswith s suffix = true → ∃ p, s = p +:+ suffix.
Proof.
  induction s as [|c s IH]; simpl.
  - rewrite orb_false_r. intros ->%bool_decide_eq_true. by exists "".
  - intros [->%bool_decide_eq_true|Hs]%orb_prop; [by exists ""|].
    destruct (IH Hs) as [p ->]. by exists (String c p).
Qed.

(** The pieces of [s.split(sep)]: the last one is what follows the last
    separator. *)
Lemma split_on_last (sep : ascii) (s cur : string) :
  has_char sep cur = false →
  ∃ pieces dir name,
    PyStr.split_on sep cur s = pieces ++ [name]
    ∧ cur +:+ s = dir +:+ name
    ∧ has_char sep name = false
    ∧ (dir = "" ∨ PyStr.endswith dir (String sep "") = true).
Proof.
  revert cur. induction s as [|c s IH]; intros cur Hcur.
  { exists [], "", cur. split; [done|]. split; [apply string_app_nil_r|].
    split; [done|by left]. }
  simpl. destruct (bool_decide (c = sep)) eqn:Hc.
  - apply bool_decide_eq_true in Hc as ->.
    destruct (IH "" eq_refl) as (pieces & dir & name & Hsplit & Hpath & Hname & Hdir).
    exists (cur :: pieces), (cur +:+ String sep dir), name.
    split; [by rewrite Hsplit|]. split.
    { change ("" +:+ s) with s in Hpath. rewrite Hpath.
      by rewrite string_app_assoc, string_app_cons. }
    split; [done|]. right. destruct Hdir as [->|Hdir].
    + apply endswith_app.
    + apply endswith_prefix in Hdir as [p ->].
      rewrite <- string_app_cons, <- string_app_assoc. apply endswith_app.
  - destruct (IH (cur +:+ String c "")) as (pieces & dir & name & Hsplit & Hpath & Hrest).
    { rewrite has_char_app, Hcur. simpl. by rewrite Hc. }
    exists pieces, dir, name. split; [done|]. split; [|done].
    by rewrite <- Hpath, string_app_assoc.
Qed.

Lemma read_code_at_ok (path : string) (file : list string) :
  valid_path path = true →
  ∃ name, read_code_at path file = Ok (name, read_code file).
Proof.
  unfold read_code_at. intros ->.
  destruct (split_on_last "/" path "" eq_refl) as (pieces & dir & name & Hsplit & _).
  exists name. unfold asmfile_of. by rewrite Hsplit, index_back_last.
Qed.

(** X3. [read_code] takes a path exactly when it ends with [.asm] or
    [.S]; any other path fails the assertion.  For a path it takes, the
    name it keeps is what follows the last slash of the path: the path is
    a directory part, empty or ending with a slash, followed by the name,
    and the name has no slash.  The source has one token line per line of
    the file. *)
Theorem read_code_at_result (path : string) (file : list string) :
  (valid_path path = false → read_code_at path file = Raise AssertionError)
  ∧ (valid_path path = true →
     ∃ dir name,
       read_code_at path file = Ok (name, read_code file)
       ∧ path = dir +:+ name
       ∧ has_char "/" name = false
       ∧ (dir = "" ∨ PyStr.endswith dir "/" = true)
       ∧ List.length (read_code file) = List.length file).
Proof.
  unfold read_code_at. split; intros ->; [done|].
  destruct (split_on_last "/" path "" eq_refl)
    as (pieces & dir & name & Hsplit & Hpath & Hname & Hdir).
  exists dir, name. unfold asmfile_of. rewrite Hsplit, index_back_last.
  split; [done|]. split; [done|]. split; [done|]. split; [done|].
  apply length_map.
Qed.

Lemma load_entry_ok (t : list string) (m : gmap string string) :
  List.length t = 2%nat →
  ∃ opcode binary, t = [opcode; binary] ∧ load_entry t m = Ok (<[opcode := binary]> m).
Proof.
  destruct t as [|opcode [|binary [|]]]; try done. intros _. by eexists _, _.
Qed.

Lemma load_entry_raise (t : list string) (m : gmap string string) (e : exn) :
  load_entry t m = Raise e → e = ValueError ∧ List.length t ≠ 2%nat.
Proof.
  destruct t as [|opcode [|binary [|]]]; simpl; try done;
    by intros [= <-].
Qed.

Lemma load_entries_app (t1 t2 : list (list string)) (m : gmap string string) :
  load_entries (t1 ++ t2) m = (m' ← load_entries t1 m; load_entries t2 m').
Proof.
  revert m. induction t1 as [|e t1 IH]; intros m; [done|].
  simpl. destruct (load_entry e m) as [m'|]; [|done]. rewrite !bind_Ok. apply IH.
Qed.

Lemma load_entries_raise (ts : list (list string)) (m : gmap string string) :
  load_entries ts m = Raise ValueError
  ↔ Exists (λ t, List.length t ≠ 2%nat) ts.
Proof.
  revert m. induction ts as [|t ts IH]; intros m.
  { split; [done|]. by intros ?%Exists_nil. }
  rewrite Exists_cons. simpl.
  destruct (decide (List.length t = 2%nat)) as [Hlen|Hlen].
  - destruct (load_entry_ok t m Hlen) as (k & v & _ & ->).
    rewrite bind_Ok, IH. split; [by right|]. by intros [?|?].
  - assert (load_entry t m = Raise ValueError) as ->
      by (by destruct t as [|? [|? [|]]]).
    rewrite bind_Raise. split; [by left|done].
Qed.

Lemma load_entries_raises (ts : list (list string)) (m : gmap string string)
    (e : exn) :
  load_entries ts m = Raise e → e = ValueError.
Proof.
  revert m. induction ts as [|t ts IH]; intros m; [done|]. simpl.
  destruct (load_entry t m) as [m'|e'] eqn:Ht.
  - rewrite bind_Ok. apply IH.
  - rewrite bind_Raise. intros [= ->]. by apply load_entry_raise in Ht as [-> _].
Qed.

(** X4. [__load_table] fails exactly when some line of the file does not
    have two tokens (an empty line, one token, or three and more), and it
    fails with [ValueError] only. *)
Theorem load_table_fails (file : list string) :
  (load_table file = Raise ValueError
   ↔ Exists (λ line, List.length (tokenize line) ≠ 2%nat) file)
  ∧ (∀ e, load_table file = Raise e → e = ValueError).
Proof.
  unfold load_table. split.
  - rewrite load_entries_raise. apply Exists_fmap.
  - intros e. apply load_entries_raises.
Qed.

Lemma load_entries_from (ts : list (list string)) (m0 m : gmap string string)
    (k v : string) :
  load_entries ts m0 = Ok m →
  m !! k = Some v →
  m0 !! k = Some v ∨ [k; v] ∈ ts.
Proof.
  revert m0. induction ts as [|t ts IH]; intros m0; simpl.
  { intros [= <-] Hk. by left. }
  destruct (load_entry t m0) as [m1|] eqn:Ht; [|done]. rewrite bind_Ok.
  intros Hload Hk. destruct (IH _ Hload Hk) as [Hm1|Hin]; [|right; by right].
  destruct t as [|opcode [|binary [|]]]; try done.
  injection Ht as <-.
  destruct (decide (opcode = k)) as [->|Hne].
  - rewrite lookup_insert_eq in Hm1. injection Hm1 as ->. right. by left.
  - rewrite lookup_insert_ne in Hm1 by done. by left.
Qed.

Lemma load_entries_other (ts : list (list string)) (m0 m : gmap string string)
    (k : string) :
  load_entries ts m0 = Ok m →
  Forall (λ t, head t ≠ Some k) ts →
  m !! k = m0 !! k.
Proof.
  revert m0. induction ts as [|t ts IH]; intros m0; simpl.
  { by intros [= <-] _. }
  destruct (load_entry t m0) as [m1|] eqn:Ht; [|done]. rewrite bind_Ok.
  intros Hload [Hhead Hrest]%Forall_cons. rewrite (IH _ Hload Hrest).
  destruct t as [|opcode [|binary [|]]]; try done.
  injection Ht as <-. rewrite lookup_insert_ne; [done|]. by intros ->.
Qed.

(** X5. Every entry of a table that [__load_table] returns is a line of
    the file: the key is the first token and the value the second one of
    some line, so keys and values are tokens without capital letters,
    whatever the case of the file. *)
Theorem load_table_entries (file : list string) (m : gmap string string)
    (k v : string) :
  load_table file = Ok m →
  m !! k = Some v →
  (∃ line, line ∈ file ∧ tokenize line = [k; v])
  ∧ is_token k = true ∧ no_upper k = true
  ∧ is_token v = true ∧ no_upper v = true.
Proof.
  intros Hload Hk.
  destruct (load_entries_from _ _ _ _ _ Hload Hk) as [Hin|Hin];
    [by rewrite lookup_empty in Hin|].
  apply list_elem_of_fmap in Hin as (line & Hline & Hin).
  split; [by exists line|].
  pose proof (tokenize_is_token line) as Htok.
  pose proof (tokenize_no_upper line) as Hlow.
  rewrite <- Hline in Htok, Hlow.
  apply Forall_cons in Htok as [? [? _]%Forall_cons].
  apply Forall_cons in Hlow as [? [? _]%Forall_cons]. done.
Qed.

(** X6. When two lines of a table file have the same first token, the
    later line wins: the value of a key is the second token of the last
    line that starts with the key. *)
Theorem load_table_last_wins (pre post : list string) (line k v : string)
    (m : gmap string string) :
  load_table (pre ++ line :: post) = Ok m →
  tokenize line = [k; v] →
  Forall (λ l, head (tokenize l) ≠ Some k) post →
  m !! k = Some v.
Proof.
  unfold load_table. rewrite map_app, load_entries_app.
  intros Hload Hline Hpost.
  destruct (load_entries (map tokenize pre) ∅) as [m0|]; [|done].
  rewrite bind_Ok in Hload.
  change (map tokenize (line :: post))
    with (tokenize line :: map tokenize post) in Hload.
  rewrite Hline in Hload.
  change (load_entries ([k; v] :: map tokenize post) m0)
    with (load_entries (map tokenize post) (<[k := v]> m0)) in Hload.
  rewrite (load_entries_other _ _ _ k Hload); [apply lookup_insert_eq|].
  by apply Forall_fmap.
Qed.

End reading.

(** * Further properties: comments and numbers *)

Section stripping_and_formatting.

Lemma rm_comment_line_split (line : list string) :
  ∃ rest,
    line = rm_comment_line line ++ rest
    ∧ (rest = [] ∨ ∃ t r, rest = t :: r ∧ Py.startswith_slash t = true).
Proof.
  induction line as [|t ts (rest & Heq & Hrest)]; [by exists []; split; [|left]|].
  simpl. destruct (Py.startswith_slash t) eqn:Ht.
  - exists (t :: ts). split; [done|]. right. by exists t, ts.
  - exists rest. split; [|done]. simpl. by f_equal.
Qed.

(** X7. [__rm_comments] keeps the number of lines, and of each line it
    keeps the tokens before the first token that starts with [/]: the line
    is what is kept followed by nothing or by a rest that starts with such
    a token, and nothing kept starts with [/]. *)
Theorem rm_comments_prefix (asm : list (list string)) :
  List.length (rm_comments asm) = List.length asm
  ∧ (∀ i line, asm !! i = Some line →
       ∃ kept rest,
         rm_comments asm !! i = Some kept
         ∧ line = kept ++ rest
         ∧ comment_free kept
         ∧ (rest = [] ∨ ∃ t r, rest = t :: r ∧ Py.startswith_slash t = true)).
Proof.
  split; [apply length_map|]. intros i line Hi.
  destruct (rm_comment_line_split line) as (rest & Heq & Hrest).
  exists (rm_comment_line line), rest. split.
  - unfold rm_comments. by rewrite list_lookup_fmap, Hi.
  - split; [done|]. split; [apply rm_comment_line_free|done].
Qed.

Lemma is_binary_app (s1 s2 : string) :
  is_binary (s1 +:+ s2) = is_binary s1 && is_binary s2.
Proof.
  induction s1 as [|c s1 IH]; [done|].
  rewrite string_app_cons. simpl. by rewrite IH, andb_assoc.
Qed.

Lemma is_binary_zeros (n : nat) : is_binary (Fmt.zeros n) = true.
Proof. induction n as [|n IH]; [done|]. simpl. by rewrite IH. Qed.

Lemma is_binary_bin_pos (p : positive) : is_binary (Fmt.bin_pos p) = true.
Proof.
  induction p as [q IH|q IH|]; simpl; [| |done];
    by rewrite is_binary_app, IH.
Qed.

Lemma decode_binary (s : string) :
  is_binary s = true → decode s = bits_value s 0.
Proof.
  destruct s as [|c s]; [done|]. simpl.
  intros [[->%bool_decide_eq_true| ->%bool_decide_eq_true]%orb_prop _]%andb_prop;
    done.
Qed.

Lemma is_binary_zfill (n w : Z) :
  0 ≤ n → is_binary (Fmt.zfill (Fmt.format_b n) w) = true.
Proof.
  intros Hn. rewrite zfill_format_b, is_binary_app, is_binary_zeros by done.
  destruct n as [|p|p]; [done| |lia]. apply is_binary_bin_pos.
Qed.

(** The formatted text reads back as the number, negative numbers
    included. *)
Lemma decode_zfill (n w : Z) : decode (Fmt.zfill (Fmt.format_b n) w) = n.
Proof.
  destruct (decide (0 ≤ n)) as [Hn|Hn].
  - rewrite decode_binary by (by apply is_binary_zfill).
    by apply bits_value_format_b.
  - destruct n as [|p|p]; [lia|lia|].
    change (Fmt.zfill (Fmt.format_b (Z.neg p)) w)
      with (String "-"
              (Fmt.zeros (Z.to_nat (w - Z.of_nat (String.length (Fmt.format_b (Z.neg p)))))
               +:+ Fmt.bin_pos p)).
    change (decode (String "-" ?s)) with (- bits_value s 0).
    rewrite bits_value_app, bits_value_zeros, bits_value_bin_pos. done.
Qed.

Lemma length_zfill_ge (s : string) (w : Z) :
  w ≤ Z.of_nat (String.length (Fmt.zfill s w)).
Proof.
  unfold Fmt.zfill. destruct s as [|c r].
  { rewrite length_zeros. simpl. lia. }
  destruct (_ || _).
  - simpl String.length. rewrite string_length_app, length_zeros. lia.
  - rewrite string_length_app, length_zeros. lia.
Qed.

(** X8. What [__format2bin] writes for a number that [int] reads is the
    number again: the text decodes to it (binary digits after a minus sign
    for a negative number, which is not written in two's complement), it
    has at least [format_bits] characters, and for a number from 0 below
    [2 ^ format_bits] it has exactly [format_bits] binary digits. *)
Theorem format2bin_decode (num numformat : string) (format_bits n : Z) :
  (numformat = "dec" ∧ Py.int 10 num = Ok n)
  ∨ (numformat = "hex" ∧ Py.int 16 num = Ok n) →
  ∃ s,
    format2bin num numformat format_bits = Ok s
    ∧ decode s = n
    ∧ format_bits ≤ Z.of_nat (String.length s)
    ∧ (0 ≤ n → is_binary s = true)
    ∧ (0 ≤ n < 2 ^ format_bits → 0 < format_bits →
       String.length s = Z.to_nat format_bits).
Proof.
  intros Hread. exists (Fmt.zfill (Fmt.format_b n) format_bits). split.
  { unfold format2bin. destruct Hread as [[-> Hn]|[-> Hn]]; simpl; by rewrite Hn. }
  split; [apply decode_zfill|]. split; [apply length_zfill_ge|].
  split; [apply is_binary_zfill|]. apply length_zfill_format_b.
Qed.


End stripping_and_formatting.


(** * Further properties: the first pass *)

Section first_pass_more.

Lemma run_lines_raises {S : Type} (step : list string → S → result (flow S))
    (P : exn → Prop) (asm : list (list string)) (s : S) (e : exn) :
  (∀ line s' e', step line s' = Raise e' → P e') →
  run_lines step asm s = Raise e → P e.
Proof.
  intros Hstep. revert s. induction asm as [|line asm IH]; intros s; [done|].
  rewrite run_lines_cons. destruct (step line s) as [[s'|s']|e'] eqn:Hline;
    [apply IH|done|].
  intros [= <-]. by eapply Hstep.
Qed.

Lemma first_pass_line_raises (line : list string) (st : Z * gmap string Z) (e : exn) :
  first_pass_line line st = Raise e →
  first_pass_accepts line = false ∧ (e = IndexError ∨ e = ValueError).
Proof.
  destruct st as [LC table], line as [|tok0 rest].
  { intros [= <-]. split; [done|by left]. }
  unfold first_pass_line, first_pass_accepts.
  rewrite index_0_cons, bind_Ok, index_back_1.
  destruct (islabel tok0); [done|].
  destruct (decide (tok0 = "org")) as [->|Hne]; [|by destruct (decide _)].
  destruct (last ("org" :: rest)) as [tok|]; [|intros [= <-]; split; [done|by left]].
  rewrite bind_Ok. destruct (Py.int 16 tok) as [v|e'] eqn:Hint; [done|].
  rewrite bind_Raise. intros [= <-]. apply int_raises in Hint as ->.
  split; [done|by right].
Qed.

Lemma first_pass_line_accepted (line : list string) (st : Z * gmap string Z) :
  first_pass_accepts line = true → ∃ f, first_pass_line line st = Ok f.
Proof.
  intros Hacc. destruct (first_pass_line line st) as [f|e] eqn:Hstep; [by eexists|].
  apply first_pass_line_raises in Hstep as [Hno _]. congruence.
Qed.

Lemma first_pass_raises (asm : list (list string)) (table : gmap string Z)
    (e : exn) :
  first_pass asm table = Raise e → e = IndexError ∨ e = ValueError.
Proof.
  unfold first_pass.
  destruct (run_lines first_pass_line asm (0, table)) as [f|e'] eqn:Hrun; [done|].
  rewrite bind_Raise. intros [= <-].
  eapply (run_lines_raises _ (λ e, e = IndexError ∨ e = ValueError));
    [|exact Hrun].
  intros line s e2. by intros [_ ?]%first_pass_line_raises.
Qed.

(** X10. The first pass fails only on a line it does not accept, a line
    of zero tokens ([IndexError]) or an [org] line whose last token is
    not a hexadecimal number ([ValueError]), and with no other exception;
    when every line is one it accepts, it returns a symbol table. *)
Theorem first_pass_errors (asm : list (list string)) (table : gmap string Z) :
  (∀ e, first_pass asm table = Raise e →
     (e = IndexError ∨ e = ValueError)
     ∧ Exists (λ line, first_pass_accepts line = false) asm)
  ∧ (Forall (λ line, first_pass_accepts line = true) asm →
     ∃ table', first_pass asm table = Ok table').
Proof.
  assert (∀ s e, run_lines first_pass_line asm s = Raise e →
            (e = IndexError ∨ e = ValueError)
            ∧ Exists (λ line, first_pass_accepts line = false) asm) as Hraise.
  { induction asm as [|line asm IH]; intros s e; [done|].
    rewrite run_lines_cons.
    destruct (first_pass_line line s) as [[s'|s']|e'] eqn:Hline; [|done|].
    - intros [He Hex]%IH. split; [done|by right].
    - intros [= <-]. apply first_pass_line_raises in Hline as [Hno He].
      split; [done|by left]. }
  split.
  - intros e. unfold first_pass.
    destruct (run_lines first_pass_line asm (0, table)) as [f|e'] eqn:Hrun; [done|].
    rewrite bind_Raise. intros [= <-]. by eapply Hraise.
  - intros Hall. unfold first_pass.
    destruct (run_lines first_pass_line asm (0, table)) as [f|e] eqn:Hrun;
      [by eexists|].
    apply Hraise in Hrun as [_ Hex]. apply Exists_exists in Hex as (line & Hin & Hno).
    rewrite Forall_forall in Hall. apply Hall in Hin. congruence.
Qed.

Lemma first_pass_line_other (line : list string) (LC : Z) (table : gmap string Z)
    (f : flow (Z * gmap string Z)) (lab : string) :
  first_pass_line line (LC, table) = Ok f →
  head line ≠ Some lab →
  (flow_state f).2 !! lab = table !! lab.
Proof.
  destruct line as [|tok0 rest]; [done|].
  unfold first_pass_line. rewrite index_0_cons, bind_Ok. intros Hstep Hhead.
  destruct (islabel tok0).
  { injection Hstep as <-. simpl. rewrite lookup_insert_ne; [done|].
    intros ->. by apply Hhead. }
  destruct (decide (tok0 = "org")).
  { destruct (Py.index_back _ _) as [tok|]; [|done]. rewrite bind_Ok in Hstep.
    destruct (Py.int 16 tok); [|done]. by injection Hstep as <-. }
  destruct (decide (tok0 = "end")); by injection Hstep as <-.
Qed.

Lemma run_first_pass_other (asm : list (list string)) (LC : Z)
    (table : gmap string Z) (f : flow (Z * gmap string Z)) (lab : string) :
  run_lines first_pass_line asm (LC, table) = Ok f →
  Forall (λ l, head l ≠ Some lab) asm →
  (flow_state f).2 !! lab = table !! lab.
Proof.
  revert LC table. induction asm as [|line asm IH]; intros LC table.
  { by intros [= <-] _. }
  rewrite run_lines_cons. intros Hrun [Hline Hrest]%Forall_cons.
  destruct (first_pass_line line (LC, table)) as [[[LC' t']|s']|e] eqn:Hstep;
    [| |done].
  - rewrite (IH _ _ Hrun Hrest).
    by apply (first_pass_line_other _ _ _ _ lab Hstep).
  - injection Hrun as <-.
    by apply (first_pass_line_other _ _ _ _ lab Hstep).
Qed.

(** X11. A label declared more than once has the location of its last
    declaration: when the first pass is at a line that declares [lab] with
    the location counter [LC] and no later line starts with [lab], the
    symbol table gives [LC] for [lab]. *)
Theorem label_last_declaration (pre post : list (list string)) (lab : string)
    (rest : list string) (LC : Z) (table table_j table' : gmap string Z) :
  islabel lab = true →
  run_lines first_pass_line pre (0, table) = Ok (Next (LC, table_j)) →
  Forall (λ l, head l ≠ Some lab) post →
  first_pass (pre ++ (lab :: rest) :: post) table = Ok table' →
  table' !! lab = Some LC.
Proof.
  intros Hlab Hpre Hpost. unfold first_pass.
  rewrite run_lines_app, Hpre, run_lines_cons, first_pass_line_label by done.
  destruct (run_lines first_pass_line post _) as [f|] eqn:Hrun; [|done].
  rewrite bind_Ok. intros [= <-].
  rewrite (run_first_pass_other _ _ _ _ lab Hrun Hpost). apply lookup_insert_eq.
Qed.

Lemma first_pass_line_union (line : list string) (LC : Z) (d table : gmap string Z) :
  first_pass_line line (LC, d ∪ table)
  = on_store (λ d', d' ∪ table) (first_pass_line line (LC, d)).
Proof.
  destruct line as [|tok0 rest]; [done|].
  unfold first_pass_line. rewrite index_0_cons, !bind_Ok.
  destruct (islabel tok0).
  { simpl. by rewrite insert_union_l. }
  destruct (decide (tok0 = "org")).
  { destruct (Py.index_back _ _) as [tok|]; [|done]. rewrite !bind_Ok.
    by destruct (Py.int 16 tok). }
  by destruct (decide (tok0 = "end")).
Qed.

Lemma run_first_pass_union (asm : list (list string)) (LC : Z)
    (d table : gmap string Z) :
  run_lines first_pass_line asm (LC, d ∪ table)
  = on_store (λ d', d' ∪ table) (run_lines first_pass_line asm (LC, d)).
Proof.
  revert LC d. induction asm as [|line asm IH]; intros LC d; [done|].
  rewrite !run_lines_cons, first_pass_line_union.
  destruct (first_pass_line line (LC, d)) as [[[LC' d']|[LC' d']]|e]; simpl;
    [apply IH|done|done].
Qed.

Lemma run_first_pass_labels (asm : list (list string)) (LC : Z)
    (d : gmap string Z) (f : flow (Z * gmap string Z)) :
  run_lines first_pass_line asm (LC, d) = Ok f →
  (∀ k, is_Some (d !! k) → islabel k = true) →
  ∀ k, is_Some ((flow_state f).2 !! k) → islabel k = true.
Proof.
  revert LC d. induction asm as [|line asm IH]; intros LC d.
  { by intros [= <-]. }
  rewrite run_lines_cons.
  destruct (first_pass_line line (LC, d)) as [[[LC' d']|s']|e] eqn:Hstep; [| |done].
  - intros Hrun Hd. apply (IH _ _ Hrun). intros k Hk.
    destruct line as [|tok0 rest]; [done|].
    unfold first_pass_line in Hstep. rewrite index_0_cons, bind_Ok in Hstep.
    destruct (islabel tok0) eqn:Hlab.
    { injection Hstep as <- <-.
      destruct (decide (tok0 = k)) as [->|Hne]; [done|].
      rewrite lookup_insert_ne in Hk by done. by apply Hd. }
    destruct (decide (tok0 = "org")).
    { destruct (Py.index_back _ _) as [tok|]; [|done]. rewrite bind_Ok in Hstep.
      destruct (Py.int 16 tok); [|done]. injection Hstep as <- <-. by apply Hd. }
    destruct (decide (tok0 = "end")); [done|].
    injection Hstep as <- <-. by apply Hd.
  - intros [= <-] Hd. apply first_pass_line_return in Hstep as [_ ->]. exact Hd.
Qed.

(** X12. The first pass on an instance whose symbol table is not empty
    gives the labels of the source on top of the entries that were there:
    its result is the table of a first pass from the empty table, united
    with the former table (an entry of the source wins), it fails exactly
    when that pass fails, and every key that the source adds ends with a
    comma. *)
Theorem first_pass_initial_table (asm : list (list string)) (table : gmap string Z) :
  first_pass asm table = (d ← first_pass asm ∅; Ok (d ∪ table))
  ∧ (∀ d k, first_pass asm ∅ = Ok d → is_Some (d !! k) → islabel k = true).
Proof.
  split.
  - unfold first_pass.
    rewrite <- (left_id_L ∅ (∪) table) at 1. rewrite run_first_pass_union.
    by destruct (run_lines first_pass_line asm (0, ∅)) as [[[LC d]|[LC d]]|e].
  - intros d k. unfold first_pass.
    destruct (run_lines first_pass_line asm (0, ∅)) as [f|] eqn:Hrun; [|done].
    rewrite bind_Ok. intros [= <-]. apply (run_first_pass_labels _ _ _ _ Hrun).
    intros k' [? Hk']. by rewrite lookup_empty in Hk'.
Qed.

End first_pass_more.

(** * Further properties: the second pass *)

Section second_pass_more.

Variables mri_table rri_table ioi_table : gmap string string.

Ltac pass2_head :=
  unfold second_pass_line;
  rewrite index_0_cons, bind_Ok, format2bin_str, bind_Ok;
  fold address.

Lemma index_back_raises {A : Type} (l : list A) (k : nat) (e : exn) :
  Py.index_back l k = Raise e → e = IndexError.
Proof.
  unfold Py.index_back, Py.index. destruct (decide _); [|by intros [= <-]].
  destruct (l !! _); [done|by intros [= <-]].
Qed.

Lemma format2bin_raises (num numformat : string) (w : Z) (e : exn) :
  numformat = "dec" ∨ numformat = "hex" →
  format2bin num numformat w = Raise e → e = ValueError.
Proof.
  unfold format2bin. intros [->| ->]; simpl.
  - destruct (Py.int 10 num) eqn:Hn; [done|]. intros [= <-]. by eapply int_raises.
  - destruct (Py.int 16 num) eqn:Hn; [done|]. intros [= <-]. by eapply int_raises.
Qed.

Lemma second_pass_line_outcome (table : gmap string Z) (line : list string)
    (LC : Z) (bin : gmap string string) :
  line_outcome table line LC bin
    (second_pass_line mri_table rri_table ioi_table table line (LC, bin)).
Proof.
  destruct line as [|tok0 rest] eqn:Hline; [by constructor; left|].
  rewrite <- Hline.
  assert (∀ {A} (k : A → _) ,
            line_outcome table line LC bin (Raise IndexError ≫= k)) as Hidx
    by (intros; by constructor; left).
  assert (∀ num fmt (k : string → _),
            fmt = "dec" ∨ fmt = "hex" →
            (∀ w, line_outcome table line LC bin (k w)) →
            line_outcome table line LC bin (format2bin num fmt 12 ≫= k)
            ∧ line_outcome table line LC bin (format2bin num fmt 16 ≫= k)) as Hfmt.
  { intros num fmt k Hf Hk.
    split; (destruct (format2bin num fmt _) as [w|e] eqn:Hw;
            [rewrite bind_Ok; apply Hk|];
            apply format2bin_raises in Hw as ->; [|done];
            by constructor; right). }
  rewrite Hline at 2. pass2_head. rewrite <- Hline.
  unfold Py.index.
  destruct (line !! _) as [i_eff|] eqn:Heff; [|apply Hidx].
  assert (effective_token line = Some i_eff) as Htok
    by (by rewrite Hline; unfold effective_token; rewrite <- Hline).
  rewrite bind_Ok, !index_back_1.
  destruct (bool_decide (i_eff ∈ pseudo_table)) eqn:Hps.
  - destruct (decide (i_eff = "org")) as [->|Horg].
    { destruct (last line) as [tok|] eqn:Hlast; [|apply Hidx]. rewrite bind_Ok.
      destruct (Py.int 16 tok) as [v|e] eqn:Hv.
      - by eapply outcome_org.
      - apply int_raises in Hv as ->. by constructor; right. }
    destruct (decide (i_eff = "end")) as [->|Hend]; [by constructor|].
    destruct (decide (i_eff = "dec")) as [->|Hdec].
    + destruct (last line) as [tok|]; [|apply Hidx]. rewrite bind_Ok.
      apply Hfmt; [by left|]. intros w.
      by eapply outcome_word.
    + destruct (last line) as [tok|]; [|apply Hidx]. rewrite bind_Ok.
      apply Hfmt; [by right|]. intros w. by eapply outcome_word.
  - apply bool_decide_eq_false in Hps.
    assert (i_eff ≠ "org") as Horg
      by (intros ->; apply Hps; unfold pseudo_table; by repeat constructor).
    assert (i_eff ≠ "end") as Hend
      by (intros ->; apply Hps; unfold pseudo_table; by repeat constructor).
    destruct (mri_table !! i_eff) as [opcode|].
    + destruct (last line) as [tok|]; [|apply Hidx]. rewrite bind_Ok.
      assert (∀ I_bit loc_eff,
                line_outcome table line LC bin
                  (match table !! (loc_eff +:+ ",") with
                   | Some location =>
                       a ← format2bin (Fmt.str location) "dec" 12;
                       Ok (Next (LC + 1, <[address LC := I_bit +:+ opcode +:+ a]> bin))
                   | None =>
                       a ← format2bin loc_eff "hex" 12;
                       Ok (Next (LC + 1, <[address LC := I_bit +:+ opcode +:+ a]> bin))
                   end)) as Hword.
      { intros I_bit loc_eff. destruct (table !! _) as [location|].
        - rewrite format2bin_str, bind_Ok. by eapply outcome_word.
        - apply Hfmt; [by right|]. intros w. by eapply outcome_word. }
      destruct (decide (tok = "I")).
      * destruct (Py.index_back line 2) as [prev|e2] eqn:Hprev.
        -- rewrite !bind_Ok. apply Hword.
        -- apply index_back_raises in Hprev as ->. rewrite bind_Raise. apply Hidx.
      * rewrite bind_Ok. apply Hword.
    + destruct (rri_table !! i_eff) as [word|]; [by eapply outcome_word|].
      destruct (ioi_table !! i_eff) as [word|]; [by eapply outcome_word|].
      by eapply outcome_skip.
Qed.

Lemma second_pass_line_raises (table : gmap string Z) (line : list string)
    (st : Z * gmap string string) (e : exn) :
  second_pass_line mri_table rri_table ioi_table table line st = Raise e →
  e = IndexError ∨ e = ValueError.
Proof.
  destruct st as [LC bin]. intros Hstep.
  pose proof (second_pass_line_outcome table line LC bin) as Hout.
  rewrite Hstep in Hout. by inversion Hout.
Qed.

(** X13. The second pass and [assemble] fail with few exceptions:
    [assemble] raises [AssertionError] exactly on a source without lines,
    and otherwise only [IndexError] (a token that is missing on a line)
    or [ValueError] (a number that does not read), so the exception of
    [__format2bin] for an unknown format is never raised by an
    assembly. *)
Theorem assemble_errors (asm : list (list string)) (e : exn) :
  assemble mri_table rri_table ioi_table asm = Raise e →
  (asm = [] ∧ e = AssertionError)
  ∨ (asm ≠ [] ∧ (e = IndexError ∨ e = ValueError)).
Proof.
  unfold assemble. destruct (decide (asm = [])) as [->|Hne].
  { intros [= <-]. by left. }
  intros Hrun. right. split; [done|]. unfold passes in Hrun.
  destruct (first_pass (rm_comments asm) ∅) as [table|e1] eqn:Hfirst.
  - rewrite bind_Ok in Hrun. unfold second_pass in Hrun.
    destruct (run_lines _ _ _) as [f|e2] eqn:Hsecond; [done|].
    injection Hrun as <-.
    eapply (run_lines_raises _ (λ e, e = IndexError ∨ e = ValueError));
      [|exact Hsecond].
    intros line s e'. apply second_pass_line_raises.
  - injection Hrun as <-.
    by apply first_pass_raises in Hfirst.
Qed.

Lemma passes_line_agree (table : gmap string Z) (line : list string) (LC LC2 : Z)
    (t1 : gmap string Z) (bin bin2 : gmap string string)
    (f1 : flow (Z * gmap string Z)) :
  no_labelled_directive line = true →
  first_pass_line line (LC, t1) = Ok f1 →
  second_pass_line mri_table rri_table ioi_table table line (LC, bin)
    = Ok (Next (LC2, bin2)) →
  ∃ t1', f1 = Next (LC2, t1').
Proof.
  intros Hnld Hfirst Hsecond.
  pose proof (second_pass_line_outcome table line LC bin) as Hout.
  rewrite Hsecond in Hout.
  destruct line as [|tok0 rest]; [done|].
  assert (∀ tok, effective_token (tok0 :: rest) = Some tok →
            tok ≠ "org" → tok ≠ "end" →
            f1 = Next (LC + 1, if islabel tok0 then <[tok0 := LC]> t1 else t1))
    as Hword.
  { intros tok Heff Horg Hend. unfold effective_token in Heff.
    destruct (islabel tok0) eqn:Hlab.
    - rewrite first_pass_line_label in Hfirst by done. by injection Hfirst as <-.
    - simpl in Heff. injection Heff as ->.
      rewrite first_pass_line_word in Hfirst by done. by injection Hfirst as <-. }
  inversion Hout as [| |tok v Heff Hlast Hv|tok Heff Hps|tok word Heff Horg Hend];
    subst.
  - unfold effective_token in Heff. destruct (islabel tok0) eqn:Hlab.
    + destruct rest as [|tok1 rest]; [done|]. simpl in Heff. injection Heff as ->.
      simpl in Hnld. by rewrite Hlab in Hnld.
    + simpl in Heff. injection Heff as ->.
      unfold first_pass_line in Hfirst.
      rewrite index_0_cons, bind_Ok, Hlab, index_back_1, Hlast, bind_Ok, Hv
        in Hfirst.
      destruct (decide ("org" = "org")); [|done].
      rewrite bind_Ok in Hfirst. injection Hfirst as <-. by eexists.
  - eexists. eapply Hword; [done| |].
    + intros ->. apply Hps. unfold pseudo_table. by repeat constructor.
    + intros ->. apply Hps. unfold pseudo_table. by repeat constructor.
  - eexists. by eapply Hword.
Qed.

Lemma passes_run_agree (table : gmap string Z) (asm : list (list string))
    (LC LC2 : Z) (t1 : gmap string Z) (bin bin2 : gmap string string)
    (f1 : flow (Z * gmap string Z)) :
  Forall (λ l, no_labelled_directive l = true) asm →
  run_lines first_pass_line asm (LC, t1) = Ok f1 →
  run_lines (second_pass_line mri_table rri_table ioi_table table) asm (LC, bin)
    = Ok (Next (LC2, bin2)) →
  ∃ t1', f1 = Next (LC2, t1').
Proof.
  intros Hall. revert LC t1 bin.
  induction Hall as [|line asm Hline _ IH]; intros LC t1 bin.
  { intros [= <-] [= <- <-]. by eexists. }
  rewrite !run_lines_cons.
  destruct (first_pass_line line (LC, t1)) as [f|] eqn:Hfirst; [|done].
  destruct (second_pass_line _ _ _ _ line (LC, bin)) as [[[LC' bin']|?]|?]
    eqn:Hsecond; [|done|done].
  destruct (passes_line_agree _ _ _ _ _ _ _ _ Hline Hfirst Hsecond) as [t1' ->].
  apply IH.
Qed.

(** X14. The two passes count the locations alike: on a source where no
    label is followed by [org] or [end], whenever the second pass gets to
    a line with a value of the location counter, the first pass, if it did
    not fail before, got to that line too and with the same value. *)
Theorem passes_agree_on_location (asm : list (list string)) (i : nat)
    (table0 table : gmap string Z) (bin0 bin : gmap string string) (LC : Z)
    (f1 : flow (Z * gmap string Z)) :
  Forall (λ l, no_labelled_directive l = true) asm →
  run_lines first_pass_line (take i asm) (0, table0) = Ok f1 →
  run_lines (second_pass_line mri_table rri_table ioi_table table) (take i asm)
    (0, bin0) = Ok (Next (LC, bin)) →
  ∃ table1, f1 = Next (LC, table1).
Proof.
  intros Hall. apply passes_run_agree. by apply Forall_take.
Qed.

(** X15. The address of a label is the address of the word of its line:
    on a source where no label is followed by [org] or [end], for a line
    that declares the label last, the symbol table of the first pass
    gives the label the value that the location counter of the second
    pass has when it gets to that line, under whose address key it stores
    the word of the line. *)
Theorem label_address_is_word_address (pre post : list (list string))
    (lab : string) (rest : list string) (table : gmap string Z) (LC : Z)
    (bin : gmap string string) :
  islabel lab = true →
  Forall (λ l, no_labelled_directive l = true) pre →
  Forall (λ l, head l ≠ Some lab) post →
  first_pass (pre ++ (lab :: rest) :: post) ∅ = Ok table →
  run_lines (second_pass_line mri_table rri_table ioi_table table) pre (0, ∅)
    = Ok (Next (LC, bin)) →
  table !! lab = Some LC.
Proof.
  intros Hlab Hpre Hpost Hfirst Hsecond.
  destruct (run_lines first_pass_line pre (0, ∅)) as [f1|e] eqn:Hrun.
  - destruct (passes_run_agree _ _ _ _ _ _ _ _ Hpre Hrun Hsecond) as [t1 ->].
    unfold first_pass in Hfirst.
    rewrite run_lines_app, Hrun, run_lines_cons, first_pass_line_label in Hfirst
      by done.
    destruct (run_lines first_pass_line post _) as [f|] eqn:Hpost_run; [|done].
    rewrite bind_Ok in Hfirst. injection Hfirst as <-.
    rewrite (run_first_pass_other _ _ _ _ lab Hpost_run Hpost).
    apply lookup_insert_eq.
  - unfold first_pass in Hfirst. by rewrite run_lines_app, Hrun in Hfirst.
Qed.

Lemma second_pass_line_union (table : gmap string Z) (line : list string)
    (LC : Z) (d bin : gmap string string) :
  second_pass_line mri_table rri_table ioi_table table line (LC, d ∪ bin)
  = on_store (λ d', d' ∪ bin)
      (second_pass_line mri_table rri_table ioi_table table line (LC, d)).
Proof.
  destruct line as [|tok0 rest]; [done|].
  unfold second_pass_line.
  rewrite index_0_cons, !bind_Ok, !format2bin_str, !bind_Ok.
  unfold mbind, result_bind, on_store.
  repeat case_match; simplify_eq; rewrite ?insert_union_l; done.
Qed.

Lemma run_second_pass_union (table : gmap string Z) (asm : list (list string))
    (LC : Z) (d bin : gmap string string) :
  run_lines (second_pass_line mri_table rri_table ioi_table table) asm (LC, d ∪ bin)
  = on_store (λ d', d' ∪ bin)
      (run_lines (second_pass_line mri_table rri_table ioi_table table) asm (LC, d)).
Proof.
  revert LC d. induction asm as [|line asm IH]; intros LC d; [done|].
  rewrite !run_lines_cons, second_pass_line_union.
  destruct (second_pass_line _ _ _ _ line (LC, d)) as [[[LC' d']|[LC' d']]|e];
    simpl; [apply IH|done|done].
Qed.

Lemma run_second_pass_size (table : gmap string Z) (asm : list (list string))
    (LC : Z) (bin : gmap string string) (f : flow (Z * gmap string string)) :
  run_lines (second_pass_line mri_table rri_table ioi_table table) asm (LC, bin)
    = Ok f →
  (size (flow_state f).2 ≤ size bin + List.length asm)%nat.
Proof.
  revert LC bin. induction asm as [|line asm IH]; intros LC bin.
  { intros [= <-]. simpl. lia. }
  rewrite run_lines_cons.
  pose proof (second_pass_line_outcome table line LC bin) as Hout.
  destruct (second_pass_line _ _ _ _ line (LC, bin)) as [[[LC' bin']|s']|e]
    eqn:Hstep; [| |done].
  - intros Hrun%IH. simpl List.length.
    assert (size bin' ≤ S (size bin))%nat; [|lia].
    inversion Hout; subst; [lia|lia|].
    destruct (bin !! address LC) as [w|] eqn:Hkey.
    + rewrite map_size_insert_Some by done. lia.
    + rewrite map_size_insert_None by done. lia.
  - intros [= <-]. inversion Hout; subst. simpl. lia.
Qed.

(** X16. The second pass only adds to the binary image of the instance:
    its result is the image of a second pass from the empty image, united
    with the former image (a word of the run wins over a former word at
    the same key), it fails exactly when that pass fails, and from the
    empty image it stores at most one word per line. *)
Theorem second_pass_initial_image (table : gmap string Z)
    (asm : list (list string)) (bin : gmap string string) :
  second_pass mri_table rri_table ioi_table table asm bin
  = (d ← second_pass mri_table rri_table ioi_table table asm ∅; Ok (d ∪ bin))
  ∧ (∀ d, second_pass mri_table rri_table ioi_table table asm ∅ = Ok d →
       (size d ≤ List.length asm)%nat).
Proof.
  split.
  - unfold second_pass.
    rewrite <- (left_id_L ∅ (∪) bin) at 1. rewrite run_second_pass_union.
    by destruct (run_lines _ asm (0, ∅)) as [[[LC d]|[LC d]]|e].
  - intros d. unfold second_pass.
    destruct (run_lines _ asm (0, ∅)) as [f|] eqn:Hrun; [|done].
    rewrite bind_Ok. intros [= <-]. apply run_second_pass_size in Hrun.
    by rewrite map_size_empty in Hrun.
Qed.

End second_pass_more.

(** * Further properties: the instance *)

Section instance.

Lemma union_absorb {V : Type} (d m : gmap string V) : d ∪ (d ∪ m) = d ∪ m.
Proof. by rewrite (assoc_L (∪)), (idemp_L (∪) d). Qed.

Lemma rm_comments_twice (asm : list (list string)) :
  rm_comments (rm_comments asm) = rm_comments asm.
Proof.
  induction asm as [|line asm IH]; simpl; [done|].
  f_equal; [|exact IH]. apply rm_comment_line_id, rm_comment_line_free.
Qed.

Lemma first_pass_union (asm : list (list string)) (table : gmap string Z) :
  first_pass asm table = (d ← first_pass asm ∅; Ok (d ∪ table)).
Proof.
  unfold first_pass.
  rewrite <- (left_id_L ∅ (∪) table) at 1. rewrite run_first_pass_union.
  by destruct (run_lines first_pass_line asm (0, ∅)) as [[[LC d]|[LC d]]|e].
Qed.

Lemma second_pass_union (mri_table rri_table ioi_table : gmap string string)
    (table : gmap string Z) (asm : list (list string)) (bin : gmap string string) :
  second_pass mri_table rri_table ioi_table table asm bin
  = (d ← second_pass mri_table rri_table ioi_table table asm ∅; Ok (d ∪ bin)).
Proof.
  unfold second_pass.
  rewrite <- (left_id_L ∅ (∪) bin) at 1. rewrite run_second_pass_union.
  by destruct (run_lines _ asm (0, ∅)) as [[[LC d]|[LC d]]|e].
Qed.

(** A pass that succeeded succeeds again on its own result and leaves it
    as it is. *)
Lemma first_pass_again (asm : list (list string)) (table table' : gmap string Z) :
  first_pass asm table = Ok table' → first_pass asm table' = Ok table'.
Proof.
  rewrite (first_pass_union asm table), (first_pass_union asm table').
  destruct (first_pass asm ∅) as [d|]; [|done]. rewrite !bind_Ok.
  intros [= <-]. by rewrite union_absorb.
Qed.

Lemma second_pass_again (mri_table rri_table ioi_table : gmap string string)
    (table : gmap string Z) (asm : list (list string))
    (bin bin' : gmap string string) :
  second_pass mri_table rri_table ioi_table table asm bin = Ok bin' →
  second_pass mri_table rri_table ioi_table table asm bin' = Ok bin'.
Proof.
  rewrite (second_pass_union _ _ _ table asm bin),
    (second_pass_union _ _ _ table asm bin').
  destruct (second_pass _ _ _ table asm ∅) as [d|]; [|done]. rewrite !bind_Ok.
  intros [= <-]. by rewrite union_absorb.
Qed.

(** X17. Assembling again gives the same image: when [assemble] returns
    on an instance, calling it once more on the instance it leaves, with
    the same argument, returns the same binary image and leaves the
    instance as it is; the symbol table and the image kept from the first
    call do not change the second result. *)
Theorem assemble_on_again (self self' : Assembler.t) (inp : string)
    (file : list string) (image : gmap string string) :
  assemble_on self inp file = Ok (image, self') →
  assemble_on self' inp file = Ok (image, self').
Proof.
  unfold assemble_on.
  destruct (bool_decide (Assembler.asm self = []) && bool_decide (inp = ""))
    eqn:Hassert; [done|].
  destruct (negb (bool_decide (inp = "")) && negb (valid_path inp)) eqn:Hpath;
    [done|].
  destruct (if bool_decide (Assembler.asm self = []) then read_code_at inp file
            else Ok (Assembler.asmfile self, Assembler.asm self))
    as [[name code]|] eqn:Hcode; [|done].
  rewrite bind_Ok.
  destruct (first_pass (rm_comments code) _) as [table|] eqn:Hfirst; [|done].
  rewrite bind_Ok.
  destruct (second_pass _ _ _ table (rm_comments code) _) as [image'|] eqn:Hsecond;
    [|done].
  rewrite bind_Ok. intros [= <- <-]. simpl.
  assert (bool_decide (rm_comments code = []) && bool_decide (inp = "") = false)
    as ->.
  { destruct (bool_decide (Assembler.asm self = [])) eqn:Hnil.
    { simpl in Hassert. rewrite Hassert. apply andb_false_r. }
    apply bool_decide_eq_false in Hnil. injection Hcode as _ <-.
    rewrite bool_decide_eq_false_2; [done|].
    by destruct (Assembler.asm self). }
  assert ((if bool_decide (rm_comments code = []) then read_code_at inp file
           else Ok (name, rm_comments code))
          = Ok (name, if bool_decide (rm_comments code = []) then code
                      else rm_comments code)) as ->.
  { destruct (bool_decide (rm_comments code = [])) eqn:Hnil; [|done].
    apply bool_decide_eq_true in Hnil.
    destruct (bool_decide (Assembler.asm self = [])) eqn:Hself; [done|].
    apply bool_decide_eq_false in Hself. injection Hcode as _ <-.
    by destruct (Assembler.asm self). }
  rewrite bind_Ok.
  assert (rm_comments (if bool_decide (rm_comments code = []) then code
                       else rm_comments code) = rm_comments code) as ->.
  { destruct (bool_decide (rm_comments code = []));
      [done|apply rm_comments_twice]. }
  rewrite (first_pass_again _ _ _ Hfirst), bind_Ok.
  by rewrite (second_pass_again _ _ _ _ _ _ _ Hsecond), bind_Ok.
Qed.

Lemma load_table_ok (file : list string) :
  (∃ m, load_table file = Ok m)
  ↔ Forall (λ line, List.length (tokenize line) = 2%nat) file.
Proof.
  unfold load_table. split.
  - intros [m Hm]. apply Forall_forall. intros line Hin.
    destruct (decide (List.length (tokenize line) = 2%nat)) as [|Hne]; [done|].
    assert (load_entries (map tokenize file) ∅ = Raise ValueError) as Hraise.
    { apply (proj2 (load_entries_raise _ _)), (proj2 (Exists_fmap _ _ _)),
        (proj2 (Exists_exists _ _)).
      by exists line. }
    congruence.
  - intros Hall.
    destruct (load_entries (map tokenize file) ∅) as [m|e] eqn:Hload; [by eexists|].
    pose proof (load_entries_raises _ _ _ Hload) as ->.
    apply (proj1 (load_entries_raise _ _)), (proj1 (Exists_fmap _ _ _)),
      (proj1 (Exists_exists _ _)) in Hload.
    destruct Hload as (line & Hin & Hlen).
    rewrite Forall_forall in Hall. by apply Hall in Hin.
Qed.

Lemma assemble_on_new (self : Assembler.t) (image : gmap string string) :
  Assembler.address_symbol_table self = ∅ →
  Assembler.bin self = ∅ →
  (∃ self', assemble_on self "" [] = Ok (image, self'))
  ↔ assemble (Assembler.mri_table self) (Assembler.rri_table self)
      (Assembler.ioi_table self) (Assembler.asm self) = Ok image.
Proof.
  intros Htable Hbin. unfold assemble_on, assemble, passes.
  rewrite Htable, Hbin.
  destruct (decide (Assembler.asm self = [])) as [Hnil|Hne].
  { rewrite bool_decide_eq_true_2 by done. simpl. split; [by intros [? ?]|done]. }
  rewrite (bool_decide_eq_false_2 (Assembler.asm self = [])) by done. simpl.
  destruct (first_pass _ ∅) as [table|]; [|split; [by intros [? ?]|done]].
  rewrite !bind_Ok.
  destruct (second_pass _ _ _ table _ ∅) as [image'|];
    [|split; [by intros [? ?]|done]].
  rewrite !bind_Ok. simpl. split.
  - by intros [self' [= <- _]].
  - intros [= <-]. by eexists.
Qed.

Lemma load_option_ok (file : option (list string)) :
  (∃ m, match file with Some lines => load_table lines | None => Ok ∅ end = Ok m)
  ↔ table_file_ok file.
Proof.
  destruct file as [lines|]; [apply load_table_ok|].
  split; [done|]. intros _. by eexists.
Qed.

(** X18. [__init__] with a source path makes an instance exactly when the
    path ends with [.asm] or [.S] and every table file that is given has
    two tokens on each line.  The instance has an empty symbol table and
    an empty binary image, its source is the token lines of the file, and
    its first [assemble()] returns an image exactly when the two passes
    on its source and its tables give that image. *)
Theorem init_result (asmpath : string) (asmlines : list string)
    (mri rri ioi : option (list string)) :
  asmpath ≠ "" →
  ((∃ self, init asmpath asmlines mri rri ioi = Ok self)
   ↔ valid_path asmpath = true
     ∧ table_file_ok mri ∧ table_file_ok rri ∧ table_file_ok ioi)
  ∧ (∀ self, init asmpath asmlines mri rri ioi = Ok self →
       Assembler.address_symbol_table self = ∅
       ∧ Assembler.bin self = ∅
       ∧ Assembler.asm self = read_code asmlines
       ∧ (∀ image,
            (∃ self', assemble_on self "" [] = Ok (image, self'))
            ↔ assemble (Assembler.mri_table self) (Assembler.rri_table self)
                (Assembler.ioi_table self) (read_code asmlines) = Ok image)).
Proof.
  intros _. unfold init.
  destruct (valid_path asmpath) eqn:Hpath.
  - destruct (read_code_at_ok asmpath asmlines Hpath) as [name ->].
    rewrite bind_Ok.
    pose proof (load_option_ok mri) as Hmri.
    pose proof (load_option_ok rri) as Hrri.
    pose proof (load_option_ok ioi) as Hioi.
    destruct (match mri with Some _ => _ | None => _ end) as [mri_t|].
    2:{ split; [|done]. split; [by intros [? ?]|].
        intros (_ & [? ?]%Hmri & _). done. }
    destruct (match rri with Some _ => _ | None => _ end) as [rri_t|].
    2:{ split; [|done]. split; [by intros [? ?]|].
        intros (_ & _ & [? ?]%Hrri & _). done. }
    destruct (match ioi with Some _ => _ | None => _ end) as [ioi_t|].
    2:{ split; [|done]. split; [by intros [? ?]|].
        intros (_ & _ & _ & [? ?]%Hioi). done. }
    rewrite !bind_Ok. split.
    + split; [|by eexists]. intros _.
      split; [done|]. split; [apply Hmri; by eexists|].
      split; [apply Hrri; by eexists|apply Hioi; by eexists].
    + intros self [= <-]. simpl. split; [done|]. split; [done|]. split; [done|].
      intros image.
      by rewrite (assemble_on_new (Assembler.make ∅ ∅ name (read_code asmlines)
                                     mri_t rri_t ioi_t) image).
  - unfold read_code_at. rewrite Hpath, bind_Raise. split; [|done].
    split; [by intros [? ?]|by intros [? _]].
Qed.

End instance.


(** * Further properties: labels and the origin *)

Section labels_and_origin.

Lemma endswith_comma_app (p : string) : Py.endswith_comma (p +:+ ",") = true.
Proof.
  induction p as [|c p IH]; [done|]. rewrite string_app_cons.
  cbn [Py.endswith_comma]. destruct (p +:+ ",") eqn:Hp; [|exact IH].
  by destruct p.
Qed.

Lemma endswith_comma_prefix (s : string) :
  Py.endswith_comma s = true → ∃ p, s = p +:+ ",".
Proof.
  induction s as [|c s IH]; [done|]. cbn [Py.endswith_comma].
  destruct s as [|c' s'].
  - intros ->%bool_decide_eq_true. by exists "".
  - intros [p ->]%IH. by exists (String c p).
Qed.

(** X19. [__islabel] holds exactly for the strings that are some text
    followed by a comma, the lone comma included; so the key that the
    second pass looks up for an operand [x], which is [x] followed by a
    comma, is a label, and it is the label whose text is [x] only. *)
Theorem islabel_iff (s : string) :
  (islabel s = true ↔ ∃ p, s = p +:+ ",")
  ∧ (∀ x y, x +:+ "," = y +:+ "," → x = y).
Proof.
  split; [split|].
  - apply endswith_comma_prefix.
  - intros [p ->]. apply endswith_comma_app.
  - intros x. induction x as [|c x IH]; intros y Heq.
    + destruct y as [|c' y]; [done|]. rewrite string_app_cons in Heq.
      injection Heq as _ Heq. by destruct y.
    + destruct y as [|c' y].
      * rewrite string_app_cons in Heq. injection Heq as _ Heq. by destruct x.
      * rewrite !string_app_cons in Heq. injection Heq as -> Heq.
        f_equal. by apply IH.
Qed.

(** X20. An [org] line without a label sets the location counter of both
    passes to the hexadecimal value of its last token and stores no word:
    the symbol table and the binary image are as before, whatever the
    tables are. *)
Theorem org_sets_location (mri_table rri_table ioi_table : gmap string string)
    (rest : list string) (tok : string) (v LC : Z) (table : gmap string Z)
    (bin : gmap string string) :
  last ("org" :: rest) = Some tok →
  Py.int 16 tok = Ok v →
  first_pass_line ("org" :: rest) (LC, table) = Ok (Next (v, table))
  ∧ second_pass_line mri_table rri_table ioi_table table ("org" :: rest) (LC, bin)
    = Ok (Next (v, bin)).
Proof.
  intros Hlast Hv. split.
  - unfold first_pass_line.
    rewrite index_0_cons, bind_Ok, index_back_1, Hlast, bind_Ok, Hv. done.
  - unfold second_pass_line.
    rewrite index_0_cons, bind_Ok, format2bin_str, bind_Ok.
    change (negb (islabel "org")) with true. cbn iota.
    rewrite index_0_cons, bind_Ok, index_back_1, Hlast, bind_Ok, Hv. done.
Qed.

End labels_and_origin.

(** * The further properties on example inputs *)

Lemma tokenize_join_witness :
  Forall (λ t, is_token t = true ∧ no_upper t = true) ["lda"; "x"; "i"]
  ∧ tokenize (PyStr.join ["lda"; "x"; "i"]) = ["lda"; "x"; "i"].
Proof.
  assert (Forall (λ t, is_token t = true ∧ no_upper t = true) ["lda"; "x"; "i"])
    as Hall by (repeat constructor).
  split; [exact Hall|]. exact (tokenize_join ["lda"; "x"; "i"] Hall).
Defined.

Lemma load_table_entries_witness :
  let m : gmap string string := {[ "lda" := "010"; "add" := "001" ]} in
  load_table ["LDA 010"; "ADD 001"] = Ok m
  ∧ m !! "lda" = Some "010"
  ∧ (∃ line, line ∈ ["LDA 010"; "ADD 001"] ∧ tokenize line = ["lda"; "010"])
  ∧ is_token "lda" = true ∧ no_upper "lda" = true
  ∧ is_token "010" = true ∧ no_upper "010" = true.
Proof.
  intros m.
  assert (load_table ["LDA 010"; "ADD 001"] = Ok m) as Hload
    by (vm_compute; reflexivity).
  assert (m !! "lda" = Some "010") as Hk by (vm_compute; reflexivity).
  split; [exact Hload|]. split; [exact Hk|].
  exact (load_table_entries ["LDA 010"; "ADD 001"] m "lda" "010" Hload Hk).
Defined.

Lemma load_table_last_wins_witness :
  let m : gmap string string := {[ "lda" := "111"; "add" := "001" ]} in
  load_table (["LDA 010"] ++ "lda 111" :: ["add 001"]) = Ok m
  ∧ tokenize "lda 111" = ["lda"; "111"]
  ∧ Forall (λ l, head (tokenize l) ≠ Some "lda") ["add 001"]
  ∧ m !! "lda" = Some "111".
Proof.
  intros m.
  assert (load_table (["LDA 010"] ++ "lda 111" :: ["add 001"]) = Ok m) as Hload
    by (vm_compute; reflexivity).
  assert (Forall (λ l, head (tokenize l) ≠ Some "lda") ["add 001"]) as Hpost
    by (repeat constructor; discriminate).
  split; [exact Hload|]. split; [reflexivity|]. split; [exact Hpost|].
  exact (load_table_last_wins ["LDA 010"] ["add 001"] "lda 111" "lda" "111" m
           Hload eq_refl Hpost).
Defined.

Lemma format2bin_decode_witness :
  Py.int 10 "-5" = Ok (-5)
  ∧ ∃ s,
      format2bin "-5" "dec" 16 = Ok s
      ∧ decode s = -5
      ∧ 16 ≤ Z.of_nat (String.length s)
      ∧ (0 ≤ -5 → is_binary s = true)
      ∧ (0 ≤ -5 < 2 ^ 16 → 0 < 16 → String.length s = Z.to_nat 16).
Proof.
  split; [reflexivity|].
  apply (format2bin_decode "-5" "dec" 16 (-5)). left. split; reflexivity.
Defined.

Lemma label_last_declaration_witness :
  islabel "x," = true
  ∧ run_lines first_pass_line [["x,"; "dec"; "1"]; ["cla"]] (0, ∅)
    = Ok (Next (2, {[ "x," := 0 ]}))
  ∧ Forall (λ l, head l ≠ Some "x,") [["hlt"]]
  ∧ first_pass ([["x,"; "dec"; "1"]; ["cla"]] ++ ("x," :: ["dec"; "2"]) :: [["hlt"]]) ∅
    = Ok {[ "x," := 2 ]}
  ∧ ({[ "x," := 2 ]} : gmap string Z) !! "x," = Some 2.
Proof.
  assert (run_lines first_pass_line [["x,"; "dec"; "1"]; ["cla"]] (0, ∅)
          = Ok (Next (2, {[ "x," := 0 ]}))) as Hpre by (vm_compute; reflexivity).
  assert (Forall (λ l, head l ≠ Some "x,") [["hlt"]]) as Hpost
    by (repeat constructor; discriminate).
  assert (first_pass ([["x,"; "dec"; "1"]; ["cla"]]
                      ++ ("x," :: ["dec"; "2"]) :: [["hlt"]]) ∅
          = Ok {[ "x," := 2 ]}) as Hfirst by (vm_compute; reflexivity).
  split; [reflexivity|]. split; [exact Hpre|]. split; [exact Hpost|].
  split; [exact Hfirst|].
  exact (label_last_declaration [["x,"; "dec"; "1"]; ["cla"]] [["hlt"]] "x,"
           ["dec"; "2"] 2 ∅ {[ "x," := 0 ]} {[ "x," := 2 ]}
           eq_refl Hpre Hpost Hfirst).
Defined.

Lemma assemble_errors_witness :
  assemble mri_example rri_example ioi_example [["lda"; "zz"]] = Raise ValueError
  ∧ (([["lda"; "zz"]] = [] ∧ ValueError = AssertionError)
     ∨ ([["lda"; "zz"]] ≠ [] ∧ (ValueError = IndexError ∨ ValueError = ValueError))).
Proof.
  assert (assemble mri_example rri_example ioi_example [["lda"; "zz"]]
          = Raise ValueError) as Hrun by (vm_compute; reflexivity).
  split; [exact Hrun|].
  exact (assemble_errors mri_example rri_example ioi_example [["lda"; "zz"]]
           ValueError Hrun).
Defined.

Lemma passes_agree_on_location_witness :
  let asm := [["org"; "10"]; ["x,"; "dec"; "1"]; ["lda"; "x"]] in
  let table : gmap string Z := {[ "x," := 16 ]} in
  Forall (λ l, no_labelled_directive l = true) asm
  ∧ run_lines first_pass_line (take 2 asm) (0, ∅) = Ok (Next (17, table))
  ∧ run_lines (second_pass_line mri_example rri_example ioi_example table)
      (take 2 asm) (0, ∅)
    = Ok (Next (17, {[ "000000010000" := "0000000000000001" ]}))
  ∧ ∃ table1, Next (17, table) = Next (17, table1).
Proof.
  intros asm table.
  assert (Forall (λ l, no_labelled_directive l = true) asm) as Hall
    by (repeat constructor).
  assert (run_lines first_pass_line (take 2 asm) (0, ∅) = Ok (Next (17, table)))
    as Hfirst by (vm_compute; reflexivity).
  assert (run_lines (second_pass_line mri_example rri_example ioi_example table)
            (take 2 asm) (0, ∅)
          = Ok (Next (17, {[ "000000010000" := "0000000000000001" ]})))
    as Hsecond by (vm_compute; reflexivity).
  split; [exact Hall|]. split; [exact Hfirst|]. split; [exact Hsecond|].
  exact (passes_agree_on_location mri_example rri_example ioi_example asm 2
           ∅ table ∅ _ 17 _ Hall Hfirst Hsecond).
Defined.

Lemma label_address_is_word_address_witness :
  let pre := [["org"; "10"]; ["cla"]] in
  let table : gmap string Z := {[ "x," := 17 ]} in
  islabel "x," = true
  ∧ Forall (λ l, no_labelled_directive l = true) pre
  ∧ Forall (λ l, head l ≠ Some "x,") [["lda"; "x"]]
  ∧ first_pass (pre ++ ("x," :: ["dec"; "1"]) :: [["lda"; "x"]]) ∅ = Ok table
  ∧ run_lines (second_pass_line mri_example rri_example ioi_example table) pre (0, ∅)
    = Ok (Next (17, {[ "000000010000" := "0111100000000000" ]}))
  ∧ table !! "x," = Some 17.
Proof.
  intros pre table.
  assert (Forall (λ l, no_labelled_directive l = true) pre) as Hpre
    by (repeat constructor).
  assert (Forall (λ l, head l ≠ Some "x,") [["lda"; "x"]]) as Hpost
    by (repeat constructor; discriminate).
  assert (first_pass (pre ++ ("x," :: ["dec"; "1"]) :: [["lda"; "x"]]) ∅ = Ok table)
    as Hfirst by (vm_compute; reflexivity).
  assert (run_lines (second_pass_line mri_example rri_example ioi_example table)
            pre (0, ∅)
          = Ok (Next (17, {[ "000000010000" := "0111100000000000" ]})))
    as Hsecond by (vm_compute; reflexivity).
  split; [reflexivity|]. split; [exact Hpre|]. split; [exact Hpost|].
  split; [exact Hfirst|]. split; [exact Hsecond|].
  exact (label_address_is_word_address mri_example rri_example ioi_example
           pre [["lda"; "x"]] "x," ["dec"; "1"] table 17 _
           eq_refl Hpre Hpost Hfirst Hsecond).
Defined.

Lemma assemble_on_again_witness :
  let self := Assembler.make ∅ ∅ "test.asm" [["x,"; "dec"; "25"]; ["lda"; "x"]]
                mri_example rri_example ioi_example in
  ∃ image self',
    assemble_on self "" [] = Ok (image, self')
    ∧ assemble_on self' "" [] = Ok (image, self').
Proof.
  intros self.
  assert (∃ r, assemble_on self "" [] = Ok r) as [[image self'] Hrun]
    by (eexists; vm_compute; reflexivity).
  exists image, self'. split; [exact Hrun|].
  exact (assemble_on_again self self' "" [] image Hrun).
Defined.

Lemma init_result_witness :
  "prog/test.asm" ≠ ""
  ∧ ∃ self,
      init "prog/test.asm" ["CLA"; "END"] (Some ["LDA 010"])
        (Some ["CLA 0111100000000000"]) None = Ok self.
Proof.
  assert ("prog/test.asm" ≠ "") as Hne by discriminate.
  split; [exact Hne|].
  apply (init_result "prog/test.asm" ["CLA"; "END"] (Some ["LDA 010"])
           (Some ["CLA 0111100000000000"]) None Hne).
  split; [reflexivity|]. split; [|split; [|exact I]].
  - repeat constructor.
  - repeat constructor.
Defined.

Lemma org_sets_location_witness :
  last ("org" :: ["64"]) = Some "64"
  ∧ Py.int 16 "64" = Ok 100
  ∧ first_pass_line ("org" :: ["64"]) (7, ∅) = Ok (Next (100, ∅))
  ∧ second_pass_line mri_example rri_example ioi_example ∅ ("org" :: ["64"]) (7, ∅)
    = Ok (Next (100, ∅)).
Proof.
  split; [reflexivity|]. split; [reflexivity|].
  exact (org_sets_location mri_example rri_example ioi_example ["64"] "64" 100 7
           ∅ ∅ eq_refl eq_refl).
Defined.
